(** * StreamHealer: a shallow embedding of [docs/ref.ts]

    The class [StreamHealer] repairs a truncated JSON stream: [process]
    strips a conversational preamble and forwards the payload, [finish]
    closes the open string and containers and, when a schema is given,
    injects the required keys a truncated object lacks.

    Conventions of the embedding.
    - A JavaScript string is a [string], one [ascii] per UTF-16 code unit;
      that covers the code units below 256.  The program compares a code
      unit with eight ASCII characters only and copies every other one: a
      code unit above 255 is processed as any [ascii] other than those
      eight is here, and the loop [for (const char of text)], which joins
      surrogate pairs, acts on a pair as it acts on its two halves.
    - The object is a record; a method takes the record and returns the
      new record together with its result.
    - A schema is the JavaScript value the constructor receives (the proxy
      passes the [schema] member of a parsed request body), hence a JSON
      value; [undefined] is [None].
    - A call that raises [TypeError] returns [TypeError].

    The last part covers the callers of the healer in the proxy:
    [stripDefaults], the healing of a response that is not streamed, the
    template of the closing frame of a stream and the splitting of the
    upstream response into lines.  The repository holds two copies of the
    proxy, which differ in the read loop of a streamed response: one
    decodes and splits every read and gives every content to the healer,
    the other has that block inside the branch taken when the stream is
    done, where no read reaches it.  [read_lines], [read_all] and the
    statements about the closing frame of a session follow the first
    copy; everything else is common to both. *)

From Stdlib Require Import String Ascii List Bool Arith Lia.
Import ListNotations.
Local Open Scope string_scope.
Set Warnings "-register-all".

(** ** JavaScript values *)

Module JS.

(** The double quote, and a string between double quotes. *)
Definition dquote : ascii := "034".

Definition quote : string := String dquote "".

Definition quoted (s : string) : string := quote ++ s ++ quote.

(** A JSON value as [JSON.parse] builds it.  An object is the list of its
    own properties; a key occurs once (a later duplicate in the text
    replaces the earlier one while parsing).  A number is given by the
    text that [String(n)] makes of it ([42], [0.5], [1e+21]): that text
    identifies the number up to the sign of zero, and the program reads
    of a number nothing but this text, inside a template literal, and
    whether the number is falsy, which [0], [-0] and [NaN] are. *)
Inductive Json : Type :=
| JNull
| JBool (b : bool)
| JNum (text : string)
| JStr (s : string)
| JArr (items : list Json)
| JObj (members : list (string * Json)).

(** Outcome of a call that may raise. *)
Inductive result (A : Type) : Type :=
| Ok (a : A)
| TypeError.
Arguments Ok {A} a.
Arguments TypeError {A}.

Definition bind {A B : Type} (r : result A) (k : A -> result B) : result B :=
  match r with
  | Ok a => k a
  | TypeError => TypeError
  end.

(** [ToBoolean]. *)
Definition truthy (v : Json) : bool :=
  match v with
  | JNull => false
  | JBool b => b
  | JNum text => negb ((text =? "0") || (text =? "NaN"))
  | JStr s => negb (s =? "")
  | JArr _ => true
  | JObj _ => true
  end.

Definition truthy_opt (v : option Json) : bool :=
  match v with
  | Some x => truthy x
  | None => false
  end.

Fixpoint assoc (k : string) (members : list (string * Json)) : option Json :=
  match members with
  | [] => None
  | (k', v) :: rest => if k' =? k then Some v else assoc k rest
  end.

(** [v.name] for one of the fixed names [type], [required], [items],
    [properties], on a value that is neither [null] nor [undefined].  No
    prototype of a JSON value defines these names, so only an object's own
    property answers. *)
Definition get (v : Json) (name : string) : option Json :=
  match v with
  | JObj members => assoc name members
  | _ => None
  end.

Definition is_digit (c : ascii) : bool :=
  (48 <=? nat_of_ascii c)%nat && (nat_of_ascii c <=? 57)%nat.

Fixpoint digits_value (acc : nat) (s : string) : option nat :=
  match s with
  | EmptyString => Some acc
  | String c t =>
      if is_digit c then digits_value (10 * acc + (nat_of_ascii c - 48)) t
      else None
  end.

(** A canonical array index: ["0"], or digits without a leading zero. *)
Definition array_index (key : string) : option nat :=
  match key with
  | EmptyString => None
  | String c t =>
      if (c =? "0")%char then
        match t with EmptyString => Some 0%nat | _ => None end
      else digits_value 0 key
  end.

(** [v[key]] for a computed key, on a truthy value.  An object answers with
    its own property and an array with its element.  Every other answer
    JavaScript can give (a method or another member inherited from a
    prototype, a character or the length of a string, the length of an
    array) is a value without [type], [required], [items] or [properties];
    the schema walk ends with no missing key on such a value exactly as it
    does on [undefined], which stands for them here. *)
Definition get_computed (v : Json) (key : string) : option Json :=
  match v with
  | JObj members => assoc key members
  | JArr items =>
      match array_index key with
      | Some i => nth_error items i
      | None => None
      end
  | _ => None
  end.

Definition join (sep : string) (parts : list string) : string :=
  String.concat sep parts.

(** [String(v)], the conversion a template literal applies.  An array
    joins the conversions of its elements with commas, [null] elements
    giving the empty string.  An object is converted by its [toString]
    method: without an own member of that name the inherited method
    answers [[object Object]]; an own member [toString] of a JSON value is
    never a function, [valueOf] does not give a primitive either, and the
    conversion raises [TypeError]. *)
Fixpoint to_string (v : Json) : result string :=
  match v with
  | JNull => Ok "null"
  | JBool true => Ok "true"
  | JBool false => Ok "false"
  | JNum text => Ok text
  | JStr s => Ok s
  | JArr items =>
      bind
        ((fix elements (l : list Json) : result (list string) :=
            match l with
            | [] => Ok []
            | JNull :: rest =>
                bind (elements rest) (fun parts => Ok ("" :: parts))
            | x :: rest =>
                bind (to_string x)
                     (fun part =>
                        bind (elements rest) (fun parts => Ok (part :: parts)))
            end) items)
        (fun parts => Ok (join "," parts))
  | JObj members =>
      match assoc "toString" members with
      | Some _ => TypeError
      | None => Ok "[object Object]"
      end
  end.

(** [array.map(f)] for an [f] that may raise. *)
Fixpoint map_result {A B : Type} (f : A -> result B) (l : list A)
  : result (list B) :=
  match l with
  | [] => Ok []
  | x :: rest =>
      bind (f x) (fun y => bind (map_result f rest) (fun ys => Ok (y :: ys)))
  end.

End JS.
Import JS.

(** ** The healer's state *)

(** [interface StackFrame]. *)
Record StackFrame : Type := mkFrame {
  char : ascii;                (* the expected closing char *)
  isObject : bool;
  keysSeen : list string;      (* a [Set<string>], in insertion order *)
  currentKey : option string   (* [null] is [None] *)
}.

(** The fields of [class StreamHealer]. *)
Record StreamHealer : Type := mkHealer {
  schema : option Json;
  buffer : string;
  hasStartedJson : bool;
  stack : list StackFrame;     (* index 0 is the root, the last frame the innermost *)
  inString : bool;
  isEscaped : bool;
  pendingKeyBuffer : string
}.

Definition MAX_PREAMBLE_BUFFER : nat := 500.

(** [new StreamHealer(schema)]. *)
Definition new_healer (s : option Json) : StreamHealer :=
  mkHealer s "" false [] false false "".

Definition set_buffer (h : StreamHealer) (b : string) : StreamHealer :=
  mkHealer (schema h) b (hasStartedJson h) (stack h) (inString h)
           (isEscaped h) (pendingKeyBuffer h).

Definition set_hasStartedJson (h : StreamHealer) (b : bool) : StreamHealer :=
  mkHealer (schema h) (buffer h) b (stack h) (inString h)
           (isEscaped h) (pendingKeyBuffer h).

Definition set_stack (h : StreamHealer) (st : list StackFrame) : StreamHealer :=
  mkHealer (schema h) (buffer h) (hasStartedJson h) st (inString h)
           (isEscaped h) (pendingKeyBuffer h).

Definition set_inString (h : StreamHealer) (b : bool) : StreamHealer :=
  mkHealer (schema h) (buffer h) (hasStartedJson h) (stack h) b
           (isEscaped h) (pendingKeyBuffer h).

Definition set_isEscaped (h : StreamHealer) (b : bool) : StreamHealer :=
  mkHealer (schema h) (buffer h) (hasStartedJson h) (stack h) (inString h)
           b (pendingKeyBuffer h).

Definition set_pendingKeyBuffer (h : StreamHealer) (k : string) : StreamHealer :=
  mkHealer (schema h) (buffer h) (hasStartedJson h) (stack h) (inString h)
           (isEscaped h) k.

(** ** Sets of keys *)

Definition set_has (keys : list string) (k : string) : bool :=
  existsb (String.eqb k) keys.

(** [Set.prototype.add]. *)
Definition set_add (keys : list string) (k : string) : list string :=
  if set_has keys k then keys else keys ++ [k].

(** ** The stack as an array *)

(** [stack[stack.length - 1]] when the stack is not empty. *)
Fixpoint top (st : list StackFrame) : option StackFrame :=
  match st with
  | [] => None
  | [f] => Some f
  | _ :: rest => top rest
  end.

(** An assignment to a field of the innermost frame. *)
Fixpoint update_top (f : StackFrame -> StackFrame) (st : list StackFrame)
  : list StackFrame :=
  match st with
  | [] => []
  | [x] => [f x]
  | x :: rest => x :: update_top f rest
  end.

Definition push (st : list StackFrame) (f : StackFrame) : list StackFrame :=
  st ++ [f].

Definition pop (st : list StackFrame) : list StackFrame := removelast st.

Definition is_null (k : option string) : bool :=
  match k with
  | None => true
  | Some _ => false
  end.

(** ** [analyzeState] *)

(** The body of the loop of [analyzeState], for one character. *)
Definition analyzeChar (h : StreamHealer) (c : ascii) : StreamHealer :=
  if inString h then
    if isEscaped h then set_isEscaped h false
    else if (c =? "\")%char then set_isEscaped h true
    else if (c =? dquote)%char then
      let h1 := set_inString h false in
      match top (stack h) with
      | Some t =>
          if isObject t && is_null (currentKey t) then
            set_stack h1
              (update_top
                 (fun f => mkFrame (char f) (isObject f)
                             (set_add (keysSeen f) (pendingKeyBuffer h))
                             (Some (pendingKeyBuffer h)))
                 (stack h))
          else h1
      | None => h1
      end
    else
      match top (stack h) with
      | Some t =>
          if isObject t && is_null (currentKey t) then
            set_pendingKeyBuffer h (pendingKeyBuffer h ++ String c "")
          else h
      | None => h
      end
  else
    if (c =? dquote)%char then
      set_pendingKeyBuffer (set_inString h true) ""
    else if (c =? ":")%char then h
    else if (c =? ",")%char then
      match top (stack h) with
      | Some t =>
          if isObject t then
            set_stack h
              (update_top
                 (fun f => mkFrame (char f) (isObject f) (keysSeen f) None)
                 (stack h))
          else h
      | None => h
      end
    else if (c =? "{")%char then
      set_stack h (push (stack h) (mkFrame "}" true [] None))
    else if (c =? "[")%char then
      set_stack h (push (stack h) (mkFrame "]" false [] None))
    else if (c =? "}")%char || (c =? "]")%char then
      match top (stack h) with
      | Some t =>
          if (char t =? c)%char then set_stack h (pop (stack h)) else h
      | None => h
      end
    else h.

Fixpoint analyzeState (h : StreamHealer) (text : string) : StreamHealer :=
  match text with
  | EmptyString => h
  | String c rest => analyzeState (analyzeChar h c) rest
  end.

(** ** [process] *)

Definition is_opener (c : ascii) : bool :=
  (c =? "{")%char || (c =? "[")%char.

(** [s.search(/[{\[]/)]; [-1] is [None]. *)
Fixpoint search_opener (s : string) : option nat :=
  match s with
  | EmptyString => None
  | String c rest =>
      if is_opener c then Some 0%nat
      else option_map S (search_opener rest)
  end.

(** [s.slice(n)] for [0 <= n]. *)
Fixpoint slice (n : nat) (s : string) : string :=
  match n, s with
  | O, _ => s
  | S _, EmptyString => EmptyString
  | S m, String _ rest => slice m rest
  end.

Definition process (h : StreamHealer) (chunk : string) : StreamHealer * string :=
  if negb (hasStartedJson h) then
    let h1 := set_buffer h (buffer h ++ chunk) in
    match search_opener (buffer h1) with
    | Some startIdx =>
        let h2 := set_hasStartedJson h1 true in
        let validPayload := slice startIdx (buffer h2) in
        let h3 := set_buffer h2 "" in
        (analyzeState h3 validPayload, validPayload)
    | None =>
        if (MAX_PREAMBLE_BUFFER <? String.length (buffer h1))%nat then
          let h2 := set_hasStartedJson h1 true in
          let flushed := buffer h2 in
          let h3 := set_buffer h2 "" in
          (analyzeState h3 flushed, flushed)
        else (h1, "")
    end
  else (analyzeState h chunk, chunk).

(** ** [getMissingRequiredKeys] *)

(** [required.filter(req => !frame.keysSeen.has(req))]: a set of strings
    has no value that is not a string. *)
Definition not_seen (frame : StackFrame) (req : Json) : bool :=
  match req with
  | JStr k => negb (set_has (keysSeen frame) k)
  | _ => true
  end.

(** [required.filter(...)] on a truthy [required]: only an array has the
    method. *)
Definition filter_required (required : Json) (frame : StackFrame)
  : result (list Json) :=
  match required with
  | JArr names => Ok (filter (not_seen frame) names)
  | _ => TypeError
  end.

(** The test at the target frame. *)
Definition missing_at (currentSchema : Json) (frame : StackFrame)
  : result (list Json) :=
  match get currentSchema "type", get currentSchema "required" with
  | Some (JStr t), Some required =>
      if (t =? "object") && truthy required
      then filter_required required frame
      else Ok []
  | _, _ => Ok []
  end.

(** One step down, from the schema of [frame] to that of its child. *)
Definition descend (currentSchema : Json) (frame : StackFrame) : option Json :=
  let is_array :=
    match get currentSchema "type" with
    | Some (JStr t) => t =? "array"
    | _ => false
    end in
  if negb (isObject frame) && is_array
     && truthy_opt (get currentSchema "items")
  then get currentSchema "items"
  else if isObject frame && truthy_opt (get currentSchema "properties") then
    match get currentSchema "properties", currentKey frame with
    | Some properties, Some key =>
        if negb (key =? "") && truthy_opt (get_computed properties key)
        then get_computed properties key
        else None
    | _, _ => None
    end
  else None.

(** The loop [for (let i = 0; i <= stackIndex; i++)]; [steps] counts the
    iterations left. *)
Fixpoint schema_walk (st : list StackFrame) (stackIndex steps i : nat)
    (currentSchema : option Json) : result (list Json) :=
  match steps with
  | O => Ok []
  | S steps' =>
      match currentSchema with
      | None => Ok []
      | Some cs =>
          if truthy cs then
            match nth_error st i with
            | None => TypeError
            | Some frame =>
                if (i =? stackIndex)%nat then missing_at cs frame
                else schema_walk st stackIndex steps' (S i) (descend cs frame)
            end
          else Ok []
      end
  end.

Definition getMissingRequiredKeys (h : StreamHealer) (stackIndex : nat)
  : result (list Json) :=
  if truthy_opt (schema h) then
    schema_walk (stack h) stackIndex (S stackIndex) 0 (schema h)
  else Ok [].

(** ** [finish] *)

(** [`"${k}":null`]. *)
Definition null_entry (k : Json) : result string :=
  bind (to_string k) (fun name => Ok (quoted name ++ ":null")).

(** What one turn of the loop of [finish] appends for [stack[i]]. *)
Definition frame_closure (h : StreamHealer) (i : nat) (frame : StackFrame)
  : result string :=
  bind
    (if isObject frame && truthy_opt (schema h)
     then getMissingRequiredKeys h i
     else Ok [])
    (fun missing =>
       bind
         match missing with
         | [] => Ok ""
         | _ =>
             let needsComma := negb (Nat.eqb (List.length (keysSeen frame)) 0) in
             bind (map_result null_entry missing)
                  (fun entries =>
                     let injection := join "," entries in
                     Ok ((if needsComma then "," else "") ++ injection))
         end
         (fun injected => Ok (injected ++ String (char frame) ""))).

(** The loop [for (let i = this.stack.length - 1; i >= 0; i--)]; [n] is
    [i + 1]. *)
Fixpoint finish_loop (h : StreamHealer) (n : nat) (closure : string)
  : result string :=
  match n with
  | O => Ok closure
  | S i =>
      match nth_error (stack h) i with
      | None => TypeError
      | Some frame =>
          bind (frame_closure h i frame)
               (fun piece => finish_loop h i (closure ++ piece))
      end
  end.

(** The state after step 1 of [finish]: the pending key joins the keys of
    the innermost frame when a string is open inside an object. *)
Definition close_string (h : StreamHealer) : StreamHealer :=
  if inString h then
    match top (stack h) with
    | Some t =>
        if isObject t then
          set_stack h
            (update_top
               (fun f => mkFrame (char f) (isObject f)
                           (set_add (keysSeen f) (pendingKeyBuffer h))
                           (currentKey f))
               (stack h))
        else h
    | None => h
    end
  else h.

Definition finish (h : StreamHealer) : result string :=
  if negb (hasStartedJson h) && Nat.eqb (String.length (buffer h)) 0 then Ok ""
  else if negb (hasStartedJson h) then Ok (buffer h)
  else
    let closure := if inString h then quote else "" in
    let h1 := close_string h in
    finish_loop h1 (List.length (stack h1)) closure.

(** Feeding the chunks of a stream in order; the outputs of [process] are
    collected in call order. *)
Fixpoint feed (h : StreamHealer) (chunks : list string)
  : StreamHealer * list string :=
  match chunks with
  | [] => (h, [])
  | chunk :: rest =>
      let (h1, out) := process h chunk in
      let (h2, outs) := feed h1 rest in
      (h2, out :: outs)
  end.

(** The whole session on a fresh healer: the concatenated outputs of
    [process] and the result of [finish]. *)
Definition heal (s : option Json) (chunks : list string)
  : string * result string :=
  let (h, outs) := feed (new_healer s) chunks in
  (String.concat "" outs, finish h).

(** ** JSON texts (RFC 8259) *)

(** A deterministic recognizer of JSON texts, one character at a time:
    a stack of the open containers (innermost first) and the position of
    the reader inside the innermost one.  It accepts what [JSON.parse]
    accepts. *)
Module Rfc8259.

Inductive container : Type := InObject | InArray.

(** Inside a string: between characters, after a backslash, or inside a
    [\uXXXX] escape with [n] hexadecimal digits to come. *)
Inductive str_state : Type :=
| Plain
| Escape
| Hex (n : nat).

(** Inside a number: after the sign, after a leading zero, inside the
    integer part, after the point, inside the fraction, after [e], after
    the sign of the exponent, inside the exponent. *)
Inductive num_state : Type :=
| Minus | Zero | Int | Dot | Frac | Exp | ExpSign | ExpDigits.

Inductive position : Type :=
| PValue                       (* a value must begin *)
| PArrayStart                  (* after [[]: a value or []] *)
| PObjectStart                 (* after [{]: a key or [}] *)
| PKey                         (* after [,] in an object: a key *)
| PKeyChars (s : str_state)    (* inside a key *)
| PColon                       (* after a key: [:] *)
| PStringChars (s : str_state) (* inside a string value *)
| PNumber (n : num_state)
| PLiteral (rest : string)     (* inside [true], [false] or [null] *)
| PAfter.                      (* a value is complete *)

Definition state : Type := list container * position.

Definition initial : state := ([], PValue).

Definition is_ws (c : ascii) : bool :=
  (c =? " ")%char || (c =? "009")%char || (c =? "010")%char || (c =? "013")%char.

Definition is_digit19 (c : ascii) : bool :=
  (49 <=? nat_of_ascii c)%nat && (nat_of_ascii c <=? 57)%nat.

Definition is_hex (c : ascii) : bool :=
  is_digit c
  || ((65 <=? nat_of_ascii c)%nat && (nat_of_ascii c <=? 70)%nat)
  || ((97 <=? nat_of_ascii c)%nat && (nat_of_ascii c <=? 102)%nat).

Definition is_control (c : ascii) : bool := (nat_of_ascii c <? 32)%nat.

Definition is_exp (c : ascii) : bool := (c =? "e")%char || (c =? "E")%char.

Definition is_sign (c : ascii) : bool := (c =? "+")%char || (c =? "-")%char.

(** The character [c] begins a value. *)
Definition value_start (ctxs : list container) (c : ascii) : option state :=
  if (c =? "{")%char then Some (InObject :: ctxs, PObjectStart)
  else if (c =? "[")%char then Some (InArray :: ctxs, PArrayStart)
  else if (c =? dquote)%char then Some (ctxs, PStringChars Plain)
  else if (c =? "-")%char then Some (ctxs, PNumber Minus)
  else if (c =? "0")%char then Some (ctxs, PNumber Zero)
  else if is_digit19 c then Some (ctxs, PNumber Int)
  else if (c =? "t")%char then Some (ctxs, PLiteral "rue")
  else if (c =? "f")%char then Some (ctxs, PLiteral "alse")
  else if (c =? "n")%char then Some (ctxs, PLiteral "ull")
  else None.

(** The character [c] follows a complete value. *)
Definition after_value (ctxs : list container) (c : ascii) : option state :=
  if is_ws c then Some (ctxs, PAfter)
  else if (c =? ",")%char then
    match ctxs with
    | InObject :: _ => Some (ctxs, PKey)
    | InArray :: _ => Some (ctxs, PValue)
    | [] => None
    end
  else if (c =? "}")%char then
    match ctxs with
    | InObject :: outer => Some (outer, PAfter)
    | _ => None
    end
  else if (c =? "]")%char then
    match ctxs with
    | InArray :: outer => Some (outer, PAfter)
    | _ => None
    end
  else None.

(** A character inside a string, the closing quote apart. *)
Definition string_char (s : str_state) (c : ascii) : option str_state :=
  match s with
  | Plain =>
      if (c =? "\")%char then Some Escape
      else if is_control c || (c =? dquote)%char then None
      else Some Plain
  | Escape =>
      if (c =? dquote)%char || (c =? "\")%char || (c =? "/")%char
         || (c =? "b")%char || (c =? "f")%char || (c =? "n")%char
         || (c =? "r")%char || (c =? "t")%char
      then Some Plain
      else if (c =? "u")%char then Some (Hex 4)
      else None
  | Hex n =>
      if is_hex c then
        match n with
        | O => None
        | S O => Some Plain
        | S m => Some (Hex m)
        end
      else None
  end.

Definition num_step (n : num_state) (c : ascii) : option num_state :=
  match n with
  | Minus =>
      if (c =? "0")%char then Some Zero
      else if is_digit19 c then Some Int
      else None
  | Zero =>
      if (c =? ".")%char then Some Dot
      else if is_exp c then Some Exp
      else None
  | Int =>
      if is_digit c then Some Int
      else if (c =? ".")%char then Some Dot
      else if is_exp c then Some Exp
      else None
  | Dot => if is_digit c then Some Frac else None
  | Frac =>
      if is_digit c then Some Frac
      else if is_exp c then Some Exp
      else None
  | Exp =>
      if is_sign c then Some ExpSign
      else if is_digit c then Some ExpDigits
      else None
  | ExpSign => if is_digit c then Some ExpDigits else None
  | ExpDigits => if is_digit c then Some ExpDigits else None
  end.

(** The digits read so far form a number. *)
Definition num_done (n : num_state) : bool :=
  match n with
  | Zero | Int | Frac | ExpDigits => true
  | Minus | Dot | Exp | ExpSign => false
  end.

Definition step (st : state) (c : ascii) : option state :=
  let (ctxs, pos) := st in
  match pos with
  | PValue => if is_ws c then Some st else value_start ctxs c
  | PArrayStart =>
      if is_ws c then Some st
      else if (c =? "]")%char then
        match ctxs with
        | InArray :: outer => Some (outer, PAfter)
        | _ => None
        end
      else value_start ctxs c
  | PObjectStart =>
      if is_ws c then Some st
      else if (c =? "}")%char then
        match ctxs with
        | InObject :: outer => Some (outer, PAfter)
        | _ => None
        end
      else if (c =? dquote)%char then Some (ctxs, PKeyChars Plain)
      else None
  | PKey =>
      if is_ws c then Some st
      else if (c =? dquote)%char then Some (ctxs, PKeyChars Plain)
      else None
  | PKeyChars Plain =>
      if (c =? dquote)%char then Some (ctxs, PColon)
      else option_map (fun s => (ctxs, PKeyChars s)) (string_char Plain c)
  | PKeyChars s => option_map (fun s' => (ctxs, PKeyChars s')) (string_char s c)
  | PColon =>
      if is_ws c then Some st
      else if (c =? ":")%char then Some (ctxs, PValue)
      else None
  | PStringChars Plain =>
      if (c =? dquote)%char then Some (ctxs, PAfter)
      else option_map (fun s => (ctxs, PStringChars s)) (string_char Plain c)
  | PStringChars s =>
      option_map (fun s' => (ctxs, PStringChars s')) (string_char s c)
  | PNumber n =>
      match num_step n c with
      | Some n' => Some (ctxs, PNumber n')
      | None => if num_done n then after_value ctxs c else None
      end
  | PLiteral rest =>
      match rest with
      | String expected more =>
          if (c =? expected)%char then
            match more with
            | EmptyString => Some (ctxs, PAfter)
            | _ => Some (ctxs, PLiteral more)
            end
          else None
      | EmptyString => None
      end
  | PAfter => after_value ctxs c
  end.

Fixpoint scan (st : state) (text : string) : option state :=
  match text with
  | EmptyString => Some st
  | String c rest =>
      match step st c with
      | Some st' => scan st' rest
      | None => None
      end
  end.

(** The text may end here: no container is open and a value is complete. *)
Definition accepting (st : state) : bool :=
  match st with
  | ([], PAfter) => true
  | ([], PNumber n) => num_done n
  | _ => false
  end.

(** [text] is a JSON text. *)
Definition json_valid (text : string) : bool :=
  match scan initial text with
  | Some st => accepting st
  | None => false
  end.

(** [text] is the beginning of some JSON text. *)
Definition json_prefix (text : string) : Prop :=
  exists rest, json_valid (text ++ rest) = true.

(** A place where the open containers may be closed at once: just after an
    opener, just after a complete value, or inside a string value between
    two characters. *)
Definition closable (pos : position) : bool :=
  match pos with
  | PArrayStart | PObjectStart | PAfter | PStringChars Plain => true
  | PNumber n => num_done n
  | _ => false
  end.

(** [text] can be read and ends at a closable place. *)
Definition ends_closable (text : string) : bool :=
  match scan initial text with
  | Some (_, pos) => closable pos
  | None => false
  end.

End Rfc8259.

Import Rfc8259.

(** ** Vocabulary of the statements *)

(** No [{] and no [[] occurs in [s]. *)
Fixpoint no_opener (s : string) : bool :=
  match s with
  | EmptyString => true
  | String c rest => negb (is_opener c) && no_opener rest
  end.

Definition starts_with_opener (s : string) : bool :=
  match s with
  | EmptyString => false
  | String c _ => is_opener c
  end.

(** What the scanner keeps of a frame whatever the keys: closer and kind. *)
Definition shape (f : StackFrame) : ascii * bool := (char f, isObject f).

(** *** Schemas that conform to [interface JsonSchema]

    [required], when present, is an array whose elements satisfy
    [name_ok] (or a falsy value, which the healer treats as absent);
    [items] and the members of [properties] conform in turn. *)
Definition required_ok (name_ok : Json -> bool) (required : Json) : bool :=
  match required with
  | JArr names => forallb name_ok names
  | _ => negb (truthy required)
  end.

Fixpoint conforms (name_ok : Json -> bool) (v : Json) : bool :=
  match v with
  | JObj members =>
      (fix fields (l : list (string * Json)) : bool :=
         match l with
         | [] => true
         | (k, x) :: rest =>
             (if k =? "required" then required_ok name_ok x
              else if k =? "items" then conforms name_ok x
              else if k =? "properties" then
                match x with
                | JObj props =>
                    (fix values (ps : list (string * Json)) : bool :=
                       match ps with
                       | [] => true
                       | (_, p) :: more => conforms name_ok p && values more
                       end) props
                | JArr elements =>
                    (fix each (es : list Json) : bool :=
                       match es with
                       | [] => true
                       | e :: more => conforms name_ok e && each more
                       end) elements
                | _ => true
                end
              else true)
             && fields rest
         end) members
  | _ => true
  end.

(** The conversion of [k] to a string returns, and what it returns. *)
Definition renders (k : Json) : bool :=
  match to_string k with
  | Ok _ => true
  | TypeError => false
  end.

Definition rendered (k : Json) : string :=
  match to_string k with
  | Ok name => name
  | TypeError => ""
  end.

Definition schema_conforms (name_ok : Json -> bool) (s : option Json) : bool :=
  match s with
  | Some v => conforms name_ok v
  | None => true
  end.

(** *** The tail of [finish], frame by frame

    The governing sub-schema of the frame at depth [d]: from the root
    schema, one [descend] per frame above it. *)
Fixpoint governing (current : Json) (path : list StackFrame) : option Json :=
  match path with
  | [] => Some current
  | frame :: rest =>
      match descend current frame with
      | Some next => governing next rest
      | None => None
      end
  end.

Definition governing_at (h : StreamHealer) (d : nat) : option Json :=
  match schema h with
  | Some root => if truthy root then governing root (firstn d (stack h)) else None
  | None => None
  end.

(** The required names of [sub] that [frame] has not seen, in the order
    of [required]; none when [sub] is not typed [object] or has no array
    [required]. *)
Definition required_missing (sub : Json) (frame : StackFrame) : list Json :=
  match get sub "type", get sub "required" with
  | Some (JStr t), Some (JArr names) =>
      if t =? "object" then filter (not_seen frame) names else []
  | _, _ => []
  end.

Definition missing_of (h : StreamHealer) (d : nat) (frame : StackFrame)
  : list Json :=
  if isObject frame then
    match governing_at h d with
    | Some sub => required_missing sub frame
    | None => []
    end
  else [].

(** The entries injected for the names [missing]: each one with the value
    [null], separated by commas, after a comma when the frame has seen a
    key. *)
Definition null_injection (frame : StackFrame) (missing : list Json) : string :=
  match missing with
  | [] => ""
  | _ =>
      (match keysSeen frame with [] => "" | _ => "," end)
      ++ join "," (map (fun k => quoted (rendered k) ++ ":null") missing)
  end.

Definition frame_piece (h : StreamHealer) (d : nat) (frame : StackFrame) : string :=
  null_injection frame (missing_of h d frame) ++ String (char frame) "".

Fixpoint pieces_from (h : StreamHealer) (d : nat) (frames : list StackFrame)
  : list string :=
  match frames with
  | [] => []
  | frame :: rest => frame_piece h d frame :: pieces_from h (S d) rest
  end.

Definition concat_all (parts : list string) : string :=
  fold_right String.append "" parts.

(** The tail of a started healer: the quote that closes the open string,
    then the piece of every frame from the innermost to the root. *)
Definition null_tail (h : StreamHealer) : string :=
  (if inString h then quote else "")
  ++ concat_all (rev (pieces_from (close_string h) 0 (stack (close_string h)))).

(** *** When [finish] raises

    The frame at depth [d] makes [finish] raise: it is an object whose
    governing sub-schema is typed [object] and has a truthy [required]
    that is not an array, or that is an array with an unseen element
    whose conversion to a string raises. *)
Definition frame_raises (h : StreamHealer) (d : nat) (frame : StackFrame)
  : bool :=
  isObject frame
  && match governing_at h d with
     | Some sub =>
         match get sub "type", get sub "required" with
         | Some (JStr t), Some required =>
             (t =? "object") && truthy required
             && match required with
                | JArr names =>
                    negb (forallb renders (filter (not_seen frame) names))
                | _ => true
                end
         | _, _ => false
         end
     | None => false
     end.

Fixpoint raises_from (h : StreamHealer) (d : nat) (frames : list StackFrame)
  : bool :=
  match frames with
  | [] => false
  | frame :: rest => frame_raises h d frame || raises_from h (S d) rest
  end.

(** Some frame of a started healer makes [finish] raise, the pending key
    of an open string counted among the keys its frame has seen. *)
Definition finish_raises (h : StreamHealer) : bool :=
  raises_from (close_string h) 0 (stack (close_string h)).

(** *** Schemas of the scenarios *)

(** [{type:'object', required:['a','b','c'], properties:{b:{default:'x'},
    c:{default:42}}}]. *)
Definition schema_defaults : Json :=
  JObj [("type", JStr "object");
        ("required", JArr [JStr "a"; JStr "b"; JStr "c"]);
        ("properties",
         JObj [("b", JObj [("default", JStr "x")]);
               ("c", JObj [("default", JNum "42")])])].

(** [{required:['user'], properties:{user:{$ref:'#/definitions/User'}},
    definitions:{User:{required:['name','id']}}}]. *)
Definition schema_ref : Json :=
  JObj [("required", JArr [JStr "user"]);
        ("properties",
         JObj [("user", JObj [("$ref", JStr "#/definitions/User")])]);
        ("definitions",
         JObj [("User", JObj [("required", JArr [JStr "name"; JStr "id"])])])].

(** The same with the types of the test "should resolve reference to
    definition": the root and [User] are typed [object] and [User]
    declares its properties. *)
Definition schema_ref_typed : Json :=
  JObj [("type", JStr "object");
        ("required", JArr [JStr "user"]);
        ("properties",
         JObj [("user", JObj [("$ref", JStr "#/definitions/User")])]);
        ("definitions",
         JObj [("User",
                JObj [("type", JStr "object");
                      ("required", JArr [JStr "name"; JStr "id"]);
                      ("properties",
                       JObj [("name", JObj [("type", JStr "string")]);
                             ("id", JObj [("type", JStr "number")])])])])].

(** [{required:['a','b']}], without a [type]. *)
Definition schema_untyped : Json :=
  JObj [("required", JArr [JStr "a"; JStr "b"])].

(** [{type:'object', required:'a'}]: [required] is not an array. *)
Definition schema_malformed : Json :=
  JObj [("type", JStr "object"); ("required", JStr "a")].

(** The inputs of the scenarios: an opening brace, the key [a] between
    double quotes, a colon and the digit 1; and an object whose key [user]
    opens an object whose key [name] has the string value [A]. *)
Definition text_a1 : string := "{" ++ quoted "a" ++ ":1".

Definition text_user : string :=
  "{" ++ quoted "user" ++ ":{" ++ quoted "name" ++ ":" ++ quoted "A".

(** *** Names that need no escaping

    A name without quote, backslash and control character: between quotes
    it is a JSON string as it stands. *)
Definition plain_char (c : ascii) : bool :=
  negb (is_control c) && negb (c =? dquote)%char && negb (c =? "\")%char.

Fixpoint plain_name (s : string) : bool :=
  match s with
  | EmptyString => true
  | String c rest => plain_char c && plain_name rest
  end.

(** The name [`${k}`] of a required entry is plain. *)
Definition name_plain (k : Json) : bool :=
  renders k && plain_name (rendered k).

(** *** The scanner seen from the innermost frame

    The string flags, the pending key and the stack with its innermost
    frame first: all that [analyzeState] reads and writes. *)
Definition view : Type := bool * bool * string * list StackFrame.

Definition view_of (h : StreamHealer) : view :=
  (inString h, isEscaped h, pendingKeyBuffer h, rev (stack h)).

(** [analyzeChar] on a view. *)
Definition scan_top (v : view) (c : ascii) : view :=
  let '(inS, esc, pending, fs) := v in
  if inS then
    if esc then (inS, false, pending, fs)
    else if (c =? "\")%char then (inS, true, pending, fs)
    else if (c =? dquote)%char then
      match fs with
      | t :: r =>
          if isObject t && is_null (currentKey t) then
            (false, esc, pending,
             mkFrame (char t) (isObject t) (set_add (keysSeen t) pending)
                     (Some pending) :: r)
          else (false, esc, pending, fs)
      | [] => (false, esc, pending, fs)
      end
    else
      match fs with
      | t :: r =>
          if isObject t && is_null (currentKey t)
          then (inS, esc, pending ++ String c "", fs)
          else v
      | [] => v
      end
  else
    if (c =? dquote)%char then (true, esc, "", fs)
    else if (c =? ":")%char then v
    else if (c =? ",")%char then
      match fs with
      | t :: r =>
          if isObject t
          then (inS, esc, pending,
                mkFrame (char t) (isObject t) (keysSeen t) None :: r)
          else v
      | [] => v
      end
    else if (c =? "{")%char then
      (inS, esc, pending, mkFrame "}" true [] None :: fs)
    else if (c =? "[")%char then
      (inS, esc, pending, mkFrame "]" false [] None :: fs)
    else if (c =? "}")%char || (c =? "]")%char then
      match fs with
      | t :: r => if (char t =? c)%char then (inS, esc, pending, r) else v
      | [] => v
      end
    else v.

Fixpoint scan_view (v : view) (text : string) : view :=
  match text with
  | EmptyString => v
  | String c rest => scan_view (scan_top v c) rest
  end.

(** *** The scanner and the reader of JSON texts, side by side *)

Definition kind (f : StackFrame) : container :=
  if isObject f then InObject else InArray.

Definition kind_eqb (a b : container) : bool :=
  match a, b with
  | InObject, InObject | InArray, InArray => true
  | _, _ => false
  end.

Fixpoint kinds_match (fs : list StackFrame) (ctxs : list container) : bool :=
  match fs, ctxs with
  | [], [] => true
  | f :: fs', k :: ctxs' => kind_eqb (kind f) k && kinds_match fs' ctxs'
  | _, _ => false
  end.

(** The closer of a frame is that of its kind. *)
Definition closer_ok (f : StackFrame) : bool :=
  (char f =? (if isObject f then "}" else "]"))%char.

Definition no_keys (f : StackFrame) : bool :=
  match keysSeen f with
  | [] => true
  | _ => false
  end.

(** An object frame whose current member has its key: the reader is at or
    inside the value. *)
Definition in_value (f : StackFrame) : bool :=
  implb (isObject f) (negb (is_null (currentKey f)) && negb (no_keys f)).

Definition in_string_pos (pos : position) : bool :=
  match pos with
  | PKeyChars _ | PStringChars _ => true
  | _ => false
  end.

Definition escape_pos (pos : position) : bool :=
  match pos with
  | PKeyChars Escape | PStringChars Escape => true
  | _ => false
  end.

(** The letters still to come of a literal. *)
Definition literal_rest (rest : string) : bool :=
  existsb (String.eqb rest)
    ["rue"; "ue"; "e"; "alse"; "lse"; "se"; "ull"; "ll"; "l"].

(** What the innermost frame must be at each place of the reader. *)
Definition top_at (pos : position) (fs : list StackFrame) : bool :=
  match pos, fs with
  | PObjectStart, t :: _ => isObject t && no_keys t && is_null (currentKey t)
  | PArrayStart, t :: _ => negb (isObject t)
  | PKey, t :: _ => isObject t && is_null (currentKey t) && negb (no_keys t)
  | PKeyChars _, t :: _ => isObject t && is_null (currentKey t)
  | PColon, t :: _ => isObject t && in_value t
  | (PObjectStart | PArrayStart | PKey | PKeyChars _ | PColon), [] => false
  | PLiteral rest, t :: _ => literal_rest rest && in_value t
  | PLiteral rest, [] => literal_rest rest
  | _, t :: _ => in_value t
  | _, [] => true
  end.

(** The view [v] of the scanner agrees with the state [st] of the reader:
    same open containers, same place with respect to strings, and the
    keys of every open object recorded as the place requires. *)
Definition agree (v : view) (st : state) : bool :=
  let '(inS, esc, _, fs) := v in
  let (ctxs, pos) := st in
  kinds_match fs ctxs
  && forallb closer_ok fs
  && Bool.eqb inS (in_string_pos pos)
  && Bool.eqb esc (escape_pos pos)
  && top_at pos fs
  && forallb in_value (tl fs).

(** A value has just been read. *)
Definition value_done (pos : position) : bool :=
  match pos with
  | PAfter => true
  | PNumber n => num_done n
  | _ => false
  end.

(** What [finish] appends for one frame: the entries of some plain names,
    none for an array, and the closer. *)
Definition piece_of (f : StackFrame) (piece : string) : Prop :=
  exists names,
    piece = null_injection f names ++ String (char f) ""
    /\ forallb name_plain names = true
    /\ (isObject f = false -> names = []).

(** The text made of an opening bracket, a quote, the letter a and a
    backslash: a stream that stops right after a backslash in a string. *)
Definition text_backslash : string := "[" ++ quote ++ "a\".

(** The text made of an opening brace, the key [a] and a colon. *)
Definition text_colon : string := "{" ++ quoted "a" ++ ":".

(** The healer that waits for the JSON to begin, with [b] in its buffer,
    and the healer that has just seen it begin. *)
Definition waiting (s : option Json) (b : string) : StreamHealer :=
  mkHealer s b false [] false false "".

Definition begun (s : option Json) : StreamHealer :=
  mkHealer s "" true [] false false "".

(** [{type:'object', required:['a','b']}]. *)
Definition schema_ab : Json :=
  JObj [("type", JStr "object"); ("required", JArr [JStr "a"; JStr "b"])].

(** [c.repeat(n)]. *)
Fixpoint repeat_char (c : ascii) (n : nat) : string :=
  match n with
  | O => ""
  | S m => String c (repeat_char c m)
  end.

(** The healer that has read an opening brace, a quote and the letter a:
    the key [a] is still open. *)
Definition reading_key : StreamHealer :=
  fst (process (new_healer None) ("{" ++ quote ++ "a")%string).

(** ** The proxy: [stripDefaults] and the closing frame *)

(** The loop of [stripDefaults] over the members of the copy, after
    [delete newSchema.default]: the member [default] is gone and every
    other one holds its stripped value. *)
Definition strip_members (strip : Json -> Json)
  : list (string * Json) -> list (string * Json) :=
  fix each (l : list (string * Json)) : list (string * Json) :=
    match l with
    | [] => []
    | (key, x) :: rest =>
        if key =? "default" then each rest
        else (key, strip x) :: each rest
    end.

(** [stripDefaults]: a value that is not an object is returned as it is,
    an array is mapped, and an object is copied without its own [default]
    member, every other member stripped in turn. *)
Fixpoint stripDefaults (schema : Json) : Json :=
  match schema with
  | JArr items => JArr (map stripDefaults items)
  | JObj members => JObj (strip_members stripDefaults members)
  | _ => schema
  end.

Definition any_default (has : Json -> bool)
  : list (string * Json) -> bool :=
  fix any (l : list (string * Json)) : bool :=
    match l with
    | [] => false
    | (key, x) :: rest => (key =? "default") || has x || any rest
    end.

(** Some object inside [v], at any depth, has a member [default]. *)
Fixpoint has_default (v : Json) : bool :=
  match v with
  | JArr items => existsb has_default items
  | JObj members => any_default has_default members
  | _ => false
  end.

(** [closure.replace(/"/g, '\\"')]: a backslash before every quote. *)
Fixpoint escape_quotes (closure : string) : string :=
  match closure with
  | EmptyString => EmptyString
  | String c rest =>
      if (c =? dquote)%char
      then String "\" (String dquote (escape_quotes rest))
      else String c (escape_quotes rest)
  end.

(** The JSON text of the closing frame, between [data: ] and the two line
    feeds of the template literal of [finalChunk]. *)
Definition final_payload (closure : string) : string :=
  "{" ++ quoted "choices" ++ ":[{" ++ quoted "delta" ++ ":{"
  ++ quoted "content" ++ ":" ++ quote ++ escape_quotes closure ++ quote
  ++ "}}]}".

Definition finalChunk (closure : string) : string :=
  "data: " ++ final_payload closure ++ String "010" (String "010" "").

(** [buffer.split('\n')]: the pieces of [s] between line feeds, at least
    one. *)
Fixpoint split_lf (s : string) : list string :=
  match s with
  | EmptyString => [EmptyString]
  | String c rest =>
      if (c =? "010")%char then EmptyString :: split_lf rest
      else
        match split_lf rest with
        | [] => [String c EmptyString]
        | x :: more => String c x :: more
        end
  end.

(** One read of the stream, in the copy of the proxy whose loop decodes
    every read: [buffer += decoder.decode(value)], then
    [lines = buffer.split('\n')] and [buffer = lines.pop() || '']; the
    complete lines and the new buffer. *)
Definition read_lines (buffer decoded : string) : list string * string :=
  let lines := split_lf (buffer ++ decoded) in
  (removelast lines, last lines EmptyString).

(** The reads of a stream in order, in that copy: all the complete
    lines, and the buffer at the end. *)
Fixpoint read_all (buffer : string) (reads : list string)
  : list string * string :=
  match reads with
  | [] => ([], buffer)
  | decoded :: rest =>
      let (lines, buffer1) := read_lines buffer decoded in
      let (more, buffer2) := read_all buffer1 rest in
      ((lines ++ more)%list, buffer2)
  end.

(** A character that a JSON string holds as it stands, or a quote. *)
Definition plain_or_quote (c : ascii) : bool :=
  plain_char c || (c =? dquote)%char.

Fixpoint all_chars (ok : ascii -> bool) (s : string) : bool :=
  match s with
  | EmptyString => true
  | String c rest => ok c && all_chars ok rest
  end.

(** [healer.process(content) + healer.finish()] on a fresh healer: the
    healed content of a response that is not streamed. *)
Definition healed_content (s : option Json) (content : string) : result string :=
  let (h, out) := process (new_healer s) content in
  bind (finish h) (fun tail => Ok (out ++ tail)).

(** ** More vocabulary *)

(** The healer that [finish] leaves behind.  Before the JSON has started
    [finish] returns at once; after, its only assignment is the one of
    step 1, to the keys of the innermost frame. *)
Definition after_finish (h : StreamHealer) : StreamHealer :=
  if negb (hasStartedJson h) then h else close_string h.

(** A character that neither ends a string nor starts an escape. *)
Definition key_char (c : ascii) : bool :=
  negb (c =? dquote)%char && negb (c =? "\")%char.

(** The healer [h] with the schema [s]. *)
Definition with_schema (s : option Json) (h : StreamHealer) : StreamHealer :=
  mkHealer s (buffer h) (hasStartedJson h) (stack h) (inString h)
           (isEscaped h) (pendingKeyBuffer h).

(** The closers of the frames, as a string. *)
Fixpoint closers (fs : list StackFrame) : string :=
  match fs with
  | [] => ""
  | f :: rest => String (char f) (closers rest)
  end.

(** An array frame never records a key. *)
Definition array_clean (f : StackFrame) : bool :=
  isObject f || (no_keys f && is_null (currentKey f)).

(** The current key of a frame is one of the keys it has seen. *)
Definition key_recorded (f : StackFrame) : bool :=
  match currentKey f with
  | Some k => set_has (keysSeen f) k
  | None => true
  end.

(** What the scanner keeps true of every frame. *)
Definition frame_ok (f : StackFrame) : bool :=
  closer_ok f && array_clean f && key_recorded f.

(** What the scanner keeps true of its view: an escape is pending only
    inside a string, and every frame is as above. *)
Definition view_ok (v : view) : bool :=
  let '(inS, esc, _, fs) := v in
  implb esc inS && forallb frame_ok fs.

(** Induction on a JSON value through its elements and members. *)
Fixpoint Json_nested_ind (P : Json -> Prop)
    (HNull : P JNull) (HBool : forall b, P (JBool b))
    (HNum : forall text, P (JNum text)) (HStr : forall s, P (JStr s))
    (HArr : forall items, Forall P items -> P (JArr items))
    (HObj : forall members,
        Forall (fun m => P (snd m)) members -> P (JObj members))
    (v : Json) : P v :=
  match v with
  | JNull => HNull
  | JBool b => HBool b
  | JNum text => HNum text
  | JStr s => HStr s
  | JArr items =>
      HArr items
        ((fix all (l : list Json) : Forall P l :=
            match l with
            | [] => Forall_nil P
            | x :: rest =>
                Forall_cons x
                  (Json_nested_ind P HNull HBool HNum HStr HArr HObj x)
                  (all rest)
            end) items)
  | JObj members =>
      HObj members
        ((fix all (l : list (string * Json))
            : Forall (fun m => P (snd m)) l :=
            match l with
            | [] => Forall_nil _
            | m :: rest =>
                Forall_cons m
                  (match m as m0 return P (snd m0) with
                   | (_, x) =>
                       Json_nested_ind P HNull HBool HNum HStr HArr HObj x
                   end)
                  (all rest)
            end) members)
  end.

(** * Facts *)

(** ** Strings *)

Lemma append_nil_r (s : string) : s ++ "" = s.
Proof. induction s as [|c s IH]; simpl; [reflexivity | now rewrite IH]. Qed.

Lemma append_assoc (a b c : string) : (a ++ b) ++ c = a ++ (b ++ c).
Proof. induction a as [|x a IH]; simpl; [reflexivity | now rewrite IH]. Qed.

Lemma length_append (a b : string) :
  String.length (a ++ b) = String.length a + String.length b.
Proof. induction a as [|x a IH]; simpl; [reflexivity | now rewrite IH]. Qed.

Lemma no_opener_append (a b : string) :
  no_opener (a ++ b) = no_opener a && no_opener b.
Proof.
  induction a as [|x a IH]; simpl; [reflexivity|].
  rewrite IH. now rewrite andb_assoc.
Qed.

Lemma search_opener_none (s : string) :
  search_opener s = None <-> no_opener s = true.
Proof.
  induction s as [|c s IH]; simpl; [tauto|].
  destruct (is_opener c); simpl.
  - split; discriminate.
  - destruct (search_opener s); simpl.
    + split; [discriminate|]. intros H. apply IH in H. discriminate.
    + split; [|reflexivity]. intros _. now apply IH.
Qed.

Lemma search_opener_first (pre : string) (c : ascii) (rest : string) :
  no_opener pre = true -> is_opener c = true ->
  search_opener (pre ++ String c rest) = Some (String.length pre).
Proof.
  intros Hpre Hc. induction pre as [|x pre IH]; simpl in *.
  - now rewrite Hc.
  - apply andb_true_iff in Hpre as [Hx Hpre].
    apply negb_true_iff in Hx. rewrite Hx, (IH Hpre). reflexivity.
Qed.

Lemma slice_append (pre s : string) : slice (String.length pre) (pre ++ s) = s.
Proof. induction pre as [|x pre IH]; simpl; [now destruct s | exact IH]. Qed.

(** ** The scanner leaves the preamble fields alone *)

Lemma analyzeChar_fields (h : StreamHealer) (c : ascii) :
  schema (analyzeChar h c) = schema h
  /\ buffer (analyzeChar h c) = buffer h
  /\ hasStartedJson (analyzeChar h c) = hasStartedJson h.
Proof.
  unfold analyzeChar.
  repeat match goal with
         | |- context [if ?b then _ else _] => destruct b
         | |- context [match top ?s with _ => _ end] => destruct (top s)
         end; simpl; auto.
Qed.

Lemma analyzeState_fields (text : string) (h : StreamHealer) :
  schema (analyzeState h text) = schema h
  /\ buffer (analyzeState h text) = buffer h
  /\ hasStartedJson (analyzeState h text) = hasStartedJson h.
Proof.
  revert h. induction text as [|c text IH]; intros h; simpl; [auto|].
  destruct (IH (analyzeChar h c)) as (H1 & H2 & H3).
  destruct (analyzeChar_fields h c) as (K1 & K2 & K3).
  rewrite H1, H2, H3. auto.
Qed.

Lemma analyzeState_append (a b : string) (h : StreamHealer) :
  analyzeState h (a ++ b) = analyzeState (analyzeState h a) b.
Proof. revert h. induction a as [|x a IH]; intros h; simpl; [reflexivity | apply IH]. Qed.

Lemma process_started (h : StreamHealer) (chunk : string) :
  hasStartedJson h = true ->
  process h chunk = (analyzeState h chunk, chunk).
Proof. intros H. unfold process. now rewrite H. Qed.

Lemma feed_started (chunks : list string) (h : StreamHealer) :
  hasStartedJson h = true ->
  feed h chunks = (analyzeState h (String.concat "" chunks), chunks).
Proof.
  revert h. induction chunks as [|chunk chunks IH]; intros h H; simpl.
  - reflexivity.
  - rewrite (process_started h chunk H).
    assert (H' : hasStartedJson (analyzeState h chunk) = true)
      by (destruct (analyzeState_fields chunk h) as (_ & _ & ->); exact H).
    rewrite (IH _ H').
    destruct chunks as [|next more].
    + simpl. reflexivity.
    + rewrite analyzeState_append. reflexivity.
Qed.

Lemma process_schema (h : StreamHealer) (chunk : string) :
  schema (fst (process h chunk)) = schema h.
Proof.
  unfold process.
  destruct (negb (hasStartedJson h)).
  - destruct (search_opener _); [|destruct (_ <? _)%nat]; simpl;
      try (match goal with
           | |- schema (analyzeState ?x ?t) = _ =>
               destruct (analyzeState_fields t x) as (-> & _)
           end); reflexivity.
  - simpl. now destruct (analyzeState_fields chunk h) as (-> & _).
Qed.

Lemma feed_schema (chunks : list string) (h h' : StreamHealer)
    (outs : list string) :
  feed h chunks = (h', outs) -> schema h' = schema h.
Proof.
  revert h h' outs. induction chunks as [|c cs IH]; intros h h' outs; simpl.
  - now intros [= <- _].
  - pose proof (process_schema h c) as Hp.
    destruct (process h c) as [h2 o1].
    destruct (feed h2 cs) as [h3 o2] eqn:Hf. intros [= <- _].
    rewrite (IH _ _ _ Hf). exact Hp.
Qed.

(** ** The embedding on the tests of the repository

    The cases of the test suite of [StreamHealer] that do not involve
    [default] or [$ref]: the chunks fed, the concatenated outputs of
    [process] and the result of [finish]. *)
Example tests_preamble_stripping :
  heal None ["Here is the code: {" ++ quoted "foo";
             ": " ++ quoted "bar" ++ "}"]
  = ("{" ++ quoted "foo" ++ ": " ++ quoted "bar" ++ "}", Ok "")
  /\ fst (heal None ["Here is an array: [1, 2, 3"]) = "[1, 2, 3"
  /\ fst (heal None [repeat_char "a" 600]) = repeat_char "a" 600.
Proof. repeat split; vm_compute; reflexivity. Qed.

Example tests_auto_closing :
  map (fun text => snd (heal None [text]))
    ["{" ++ quoted "a" ++ ": 1";
     "[1, 2, 3";
     "{" ++ quoted "outer" ++ ": {" ++ quoted "inner" ++ ": " ++ quoted "val";
     "[{" ++ quoted "id" ++ ": 1}, {" ++ quoted "id" ++ ": 2";
     "{" ++ quoted "a" ++ ": [{" ++ quoted "b" ++ ": {" ++ quoted "c" ++ ": [1, 2";
     "{" ++ quoted "key" ++ ": " ++ quote ++ "value without closing quote";
     "{" ++ quoted "text" ++ ": " ++ quote ++ "He said \" ++ quote ++ "hello\"
         ++ quote ++ quote ++ "}";
     "{" ++ quoted "key" ++ ":";
     "{" ++ quoted "a" ++ ": 1,";
     "";
     "   " ++ String "010" "  " ++ String "009" "  "]
  = [Ok "}"; Ok "]"; Ok "}}"; Ok "}]"; Ok "]}}]}"; Ok (quote ++ "}"); Ok "";
     Ok "}"; Ok "}"; Ok "";
     Ok ("   " ++ String "010" "  " ++ String "009" "  ")].
Proof. vm_compute. reflexivity. Qed.

Example tests_schema_injection :
  snd (heal (Some schema_ab) ["{" ++ quoted "a" ++ ": 1"])
  = Ok ("," ++ quoted "b" ++ ":null}")
  /\ snd (heal (Some schema_ab)
            ["{" ++ quoted "a" ++ ": 1, " ++ quoted "b" ++ ": 2"])
     = Ok "}"
  /\ snd (heal (Some (JObj [("type", JStr "object");
                            ("required", JArr [JStr "id"; JStr "value"])]))
            ["{"])
     = Ok (quoted "id" ++ ":null," ++ quoted "value" ++ ":null}").
Proof. repeat split; vm_compute; reflexivity. Qed.

(** * The claims *)

(** ** Preamble stripping *)

(** C5.  Before JSON has started, [process] appends the chunk to the
    buffer; (a) when the buffer reads [pre ++ c :: rest] with [c] the first
    [{] or [[] (at index [length pre]), it drops [pre], marks the healer
    started, empties the buffer and returns [c :: rest]; (b) otherwise,
    when the buffer is longer than 500 characters, it returns the whole
    buffer, marks the healer started, and every later chunk is returned
    as it is; (c) otherwise it returns the empty string and keeps the
    buffer. *)
Theorem process_before_start (h : StreamHealer) (chunk : string) :
  hasStartedJson h = false ->
  let buf := buffer h ++ chunk in
  let h' := fst (process h chunk) in
  let out := snd (process h chunk) in
  (forall pre c rest,
      buf = pre ++ String c rest -> no_opener pre = true -> is_opener c = true ->
      out = String c rest /\ out = slice (String.length pre) buf
      /\ hasStartedJson h' = true /\ buffer h' = "")
  /\ (no_opener buf = true ->
      (MAX_PREAMBLE_BUFFER < String.length buf ->
       out = buf /\ hasStartedJson h' = true /\ buffer h' = ""
       /\ forall more, snd (feed h' more) = more)
      /\ (String.length buf <= MAX_PREAMBLE_BUFFER ->
          out = "" /\ hasStartedJson h' = false /\ buffer h' = buf)).
Proof.
  intros Hns buf h' out. subst h' out. unfold process. rewrite Hns. simpl.
  fold buf. split.
  - intros pre c rest Hbuf Hpre Hc.
    rewrite Hbuf, (search_opener_first pre c rest Hpre Hc).
    rewrite slice_append. simpl.
    destruct (analyzeState_fields (String c rest)
                (set_buffer (set_hasStartedJson (set_buffer h (pre ++ String c rest)) true) ""))
      as (_ & Hb & Hs).
    simpl in Hb, Hs. rewrite Hb, Hs. auto.
  - intros Hno. apply search_opener_none in Hno. rewrite Hno. split.
    + intros Hlen. apply Nat.ltb_lt in Hlen. rewrite Hlen. simpl.
      destruct (analyzeState_fields buf
                  (set_buffer (set_hasStartedJson (set_buffer h buf) true) ""))
        as (_ & Hb & Hs).
      simpl in Hb, Hs. rewrite Hb, Hs. repeat split; try reflexivity.
      intros more. rewrite feed_started by exact Hs. reflexivity.
    + intros Hlen. apply Nat.ltb_ge in Hlen. rewrite Hlen. simpl. auto.
Qed.

Lemma process_before_start_witness :
  hasStartedJson (new_healer None) = false
  /\ snd (process (new_healer None) ("Sure: {" ++ quoted "a"))
     = ("{" ++ quoted "a")%string
  /\ snd (process (new_healer None) "Sure, wait") = ""
  /\ snd (process (new_healer None) (repeat_char "a" 600)) = repeat_char "a" 600.
Proof.
  split; [reflexivity|].
  pose proof (process_before_start (new_healer None)
                ("Sure: {" ++ quoted "a") eq_refl) as [Ha _].
  pose proof (process_before_start (new_healer None) "Sure, wait" eq_refl) as [_ Hc].
  pose proof (process_before_start (new_healer None) (repeat_char "a" 600) eq_refl)
    as [_ Hb].
  split; [|split].
  - exact (proj1 (Ha "Sure: " "{"%char (quoted "a") eq_refl eq_refl eq_refl)).
  - exact (proj1 (proj2 (Hc eq_refl) ltac:(vm_compute; lia))).
  - exact (proj1 (proj1 (Hb ltac:(vm_compute; reflexivity)) ltac:(vm_compute; lia))).
Defined.

(** C10.  Once the healer has started, [process] returns its argument
    unchanged and the healer stays started, so the same holds of every
    later call, whatever the chunks contain. *)
Theorem process_verbatim_once_started (h : StreamHealer) (chunks : list string) :
  hasStartedJson h = true ->
  (forall chunk, snd (process h chunk) = chunk
                 /\ hasStartedJson (fst (process h chunk)) = true)
  /\ snd (feed h chunks) = chunks
  /\ hasStartedJson (fst (feed h chunks)) = true.
Proof.
  intros Hs. split; [|split].
  - intros chunk. rewrite (process_started h chunk Hs). simpl.
    destruct (analyzeState_fields chunk h) as (_ & _ & ->). auto.
  - now rewrite (feed_started chunks h Hs).
  - rewrite (feed_started chunks h Hs). simpl.
    destruct (analyzeState_fields (String.concat "" chunks) h) as (_ & _ & ->).
    exact Hs.
Qed.

Lemma process_verbatim_once_started_witness :
  hasStartedJson (fst (process (new_healer None) "ok {")) = true
  /\ snd (feed (fst (process (new_healer None) "ok {")) ["]] not json"; "}{"])
     = ["]] not json"; "}{"].
Proof.
  split; [reflexivity|].
  exact (proj1 (proj2 (process_verbatim_once_started
                         (fst (process (new_healer None) "ok {"))
                         ["]] not json"; "}{"] eq_refl))).
Defined.

(** ** The stack *)

Lemma top_snoc (st : list StackFrame) (f : StackFrame) : top (st ++ [f]) = Some f.
Proof.
  induction st as [|x st IH]; simpl; [reflexivity|].
  destruct (st ++ [f])%list eqn:E; [now destruct st | exact IH].
Qed.

Lemma update_top_snoc (g : StackFrame -> StackFrame) (st : list StackFrame)
    (f : StackFrame) :
  update_top g (st ++ [f]) = (st ++ [g f])%list.
Proof.
  induction st as [|x st IH]; simpl; [reflexivity|].
  destruct (st ++ [f])%list eqn:E; [now destruct st|]. now rewrite IH.
Qed.

Lemma pop_snoc (st : list StackFrame) (f : StackFrame) : pop (st ++ [f]) = st.
Proof. unfold pop. apply removelast_last. Qed.

Lemma stack_view (st : list StackFrame) :
  st = [] \/ exists below t, st = (below ++ [t])%list.
Proof.
  destruct st as [|x st] using rev_ind; [now left | right; eauto].
Qed.

Lemma snoc_inj (a b : list StackFrame) (x y : StackFrame) :
  (a ++ [x] = b ++ [y])%list -> a = b /\ x = y.
Proof. intros H. apply app_inj_tail in H. exact H. Qed.

Lemma map_snoc {A B : Type} (g : A -> B) (l : list A) (x : A) :
  map g (l ++ [x]) = (map g l ++ [g x])%list.
Proof. now rewrite map_app. Qed.

Lemma analyzeChar_outside_string (h : StreamHealer) (c : ascii) :
  inString h = false ->
  let h' := analyzeChar h c in
  (c = "{"%char -> stack h' = (stack h ++ [mkFrame "}" true [] None])%list)
  /\ (c = "["%char -> stack h' = (stack h ++ [mkFrame "]" false [] None])%list)
  /\ (c = "}"%char \/ c = "]"%char ->
      (stack h = [] -> stack h' = [])
      /\ forall below t, stack h = (below ++ [t])%list ->
           (char t = c -> stack h' = below)
           /\ (char t <> c -> stack h' = stack h))
  /\ (c <> "{"%char -> c <> "["%char -> c <> "}"%char -> c <> "]"%char ->
      map shape (stack h') = map shape (stack h)
      /\ map keysSeen (stack h') = map keysSeen (stack h)).
Proof.
  intros Hs h'. subst h'. unfold analyzeChar. rewrite Hs.
  split; [|split; [|split]].
  - intros ->. reflexivity.
  - intros ->. reflexivity.
  - intros Hc. split.
    + intros He. destruct Hc as [-> | ->]; simpl; rewrite He; simpl; exact He.
    + intros below t E. rewrite E, top_snoc, pop_snoc.
      destruct Hc as [-> | ->]; simpl; split; intros Ht.
      * apply Ascii.eqb_eq in Ht. rewrite Ht. reflexivity.
      * apply Ascii.eqb_neq in Ht. rewrite Ht. exact E.
      * apply Ascii.eqb_eq in Ht. rewrite Ht. reflexivity.
      * apply Ascii.eqb_neq in Ht. rewrite Ht. exact E.
  - intros H1 H2 H3 H4.
    apply Ascii.eqb_neq in H1, H2, H3, H4. rewrite H1, H2, H3, H4. simpl.
    destruct (c =? dquote)%char; [simpl; auto|].
    destruct (c =? ":")%char; [auto|].
    destruct (c =? ",")%char; [|auto].
    destruct (stack_view (stack h)) as [E | (below & t & E)]; rewrite E.
    + simpl. rewrite E. auto.
    + rewrite top_snoc. destruct (isObject t) eqn:Ho; [|rewrite E; auto].
      simpl. rewrite update_top_snoc, !map_snoc. simpl. auto.
Qed.

(** C6.  Outside a string, that is when [analyzeState] has read a text
    and is not inside a string, the next character it reads changes the
    stack as follows: [{] pushes an object frame and [[] an array frame;
    [}] and []] pop the innermost frame when its closer is that character
    and leave the stack as it is otherwise (also when it is empty); no
    other character pushes or pops, and none changes the closer, the kind
    or the keys seen of a frame.  Once the JSON has started, [process]
    leaves the healer that [analyzeState] makes. *)
Theorem stack_outside_strings (h : StreamHealer) (text : string) (c : ascii) :
  let h1 := analyzeState h text in
  let h' := analyzeState h (text ++ String c "") in
  inString h1 = false ->
  (c = "{"%char -> stack h' = (stack h1 ++ [mkFrame "}" true [] None])%list)
  /\ (c = "["%char -> stack h' = (stack h1 ++ [mkFrame "]" false [] None])%list)
  /\ (c = "}"%char \/ c = "]"%char ->
      (stack h1 = [] -> stack h' = [])
      /\ forall below t, stack h1 = (below ++ [t])%list ->
           (char t = c -> stack h' = below)
           /\ (char t <> c -> stack h' = stack h1))
  /\ (c <> "{"%char -> c <> "["%char -> c <> "}"%char -> c <> "]"%char ->
      map shape (stack h') = map shape (stack h1)
      /\ map keysSeen (stack h') = map keysSeen (stack h1))
  /\ (hasStartedJson h = true ->
      fst (process h (text ++ String c "")) = h').
Proof.
  cbv zeta. intros Hs. rewrite analyzeState_append. cbn [analyzeState].
  destruct (analyzeChar_outside_string (analyzeState h text) c Hs)
    as (H1 & H2 & H3 & H4).
  repeat (split; [assumption|]).
  intros Hst. rewrite (process_started h _ Hst), analyzeState_append.
  reflexivity.
Qed.

Lemma stack_outside_strings_witness :
  inString (analyzeState (new_healer None) "[1,") = false
  /\ stack (analyzeState (new_healer None) "[1,{")
     = [mkFrame "]" false [] None; mkFrame "}" true [] None].
Proof.
  split; [reflexivity|].
  exact (proj1 (stack_outside_strings (new_healer None) "[1," "{" eq_refl)
           eq_refl).
Defined.

(** C9, the claim as stated fails: while [in_string] is true, the quote
    that ends the key [a] of an object sets [current_key] of the innermost
    frame. *)
Lemma current_key_set_inside_string :
  inString reading_key = true
  /\ map currentKey (stack reading_key) = [None]
  /\ map currentKey (stack (analyzeChar reading_key dquote)) = [Some "a"].
Proof. repeat split. Qed.

Lemma analyzeChar_inside_string (h : StreamHealer) (c : ascii) :
  inString h = true ->
  let h' := analyzeChar h c in
  map shape (stack h') = map shape (stack h)
  /\ schema h' = schema h /\ buffer h' = buffer h
  /\ hasStartedJson h' = hasStartedJson h
  /\ (stack h' = stack h
      \/ (isEscaped h = false /\ c = dquote
          /\ exists below t,
               stack h = (below ++ [t])%list
               /\ isObject t = true /\ currentKey t = None
               /\ stack h' =
                  (below ++ [mkFrame (char t) (isObject t)
                               (set_add (keysSeen t) (pendingKeyBuffer h))
                               (Some (pendingKeyBuffer h))])%list)).
Proof.
  intros Hs h'.
  destruct (analyzeChar_fields h c) as (F1 & F2 & F3).
  subst h'. rewrite F1, F2, F3. clear F1 F2 F3.
  unfold analyzeChar. rewrite Hs.
  destruct (isEscaped h) eqn:He; [simpl; auto 6|].
  destruct (c =? "\")%char; [simpl; auto 6|].
  destruct (c =? dquote)%char eqn:Hq.
  - apply Ascii.eqb_eq in Hq. subst c.
    destruct (stack_view (stack h)) as [E | (below & t & E)].
    + assert (Ht : top (stack h) = None) by now rewrite E.
      rewrite Ht. simpl. auto 6.
    + assert (Ht : top (stack h) = Some t) by (rewrite E; apply top_snoc).
      rewrite Ht.
      destruct (isObject t) eqn:Ho; simpl; [|auto 6].
      destruct (currentKey t) eqn:Hk; simpl; [auto 6|].
      rewrite E, update_top_snoc, !map_snoc. unfold shape at 2 4. simpl.
      rewrite Ho.
      split; [reflexivity|]. repeat split.
      right. repeat split. exists below, t. rewrite Ho. auto.
  - destruct (top (stack h)) as [t|]; [|auto 6].
    destruct (isObject t && is_null (currentKey t)); simpl; auto 6.
Qed.

(** C9, amended.  While [in_string] is true, that is when
    [analyzeState] has read a text and is inside a string, the next
    character it reads never pushes or pops a frame and never changes the
    closer or the kind of one, nor the schema, the buffer or the started
    flag.  At the unescaped quote that ends a key (the innermost frame is
    an object whose [current_key] is none) [current_key] of the innermost
    frame becomes the pending key, which joins its [keys_seen], and the
    frames below stay as they are; in every other case the stack stays as
    it is. *)
Theorem stack_inside_strings (h : StreamHealer) (text : string) (c : ascii) :
  let h1 := analyzeState h text in
  let h' := analyzeState h (text ++ String c "") in
  inString h1 = true ->
  map shape (stack h') = map shape (stack h1)
  /\ schema h' = schema h1 /\ buffer h' = buffer h1
  /\ hasStartedJson h' = hasStartedJson h1
  /\ (forall below t,
         isEscaped h1 = false -> c = dquote ->
         stack h1 = (below ++ [t])%list ->
         isObject t = true -> currentKey t = None ->
         stack h' =
         (below ++ [mkFrame (char t) true
                      (set_add (keysSeen t) (pendingKeyBuffer h1))
                      (Some (pendingKeyBuffer h1))])%list)
  /\ (isEscaped h1 = true \/ c <> dquote \/ stack h1 = []
      \/ (exists below t,
             stack h1 = (below ++ [t])%list
             /\ (isObject t = false \/ currentKey t <> None)) ->
      stack h' = stack h1).
Proof.
  cbv zeta. intros Hs. rewrite analyzeState_append. cbn [analyzeState].
  set (h1 := analyzeState h text) in *.
  destruct (analyzeChar_inside_string h1 c Hs) as (H1 & H2 & H3 & H4 & H5).
  repeat (split; [assumption|]). split.
  - intros below t He Hc E Ho Hk.
    destruct H5 as [H5 | (_ & _ & below' & t' & E' & _ & _ & H5)].
    + exfalso. clear H1 H2 H3 H4. subst c.
      unfold analyzeChar in H5. rewrite Hs, He in H5.
      change (dquote =? "\")%char with false in H5.
      change (dquote =? dquote)%char with true in H5. cbv beta iota in H5.
      rewrite E, top_snoc, Ho, Hk in H5. cbn [andb is_null] in H5.
      cbn [set_stack stack set_inString] in H5.
      rewrite update_top_snoc in H5. apply snoc_inj in H5 as [_ H5].
      rewrite <- H5 in Hk. discriminate.
    + rewrite E in E'. apply snoc_inj in E' as [<- <-].
      rewrite Ho in H5. exact H5.
  - intros Hcase.
    destruct H5 as [H5 | (He & Hc & below & t & E & Ho & Hk & _)];
      [exact H5|].
    exfalso. destruct Hcase as [Ht | [Hn | [Hn | (below' & t' & E' & Hn)]]].
    + congruence.
    + contradiction.
    + rewrite Hn in E. now destruct below.
    + rewrite E in E'. apply snoc_inj in E' as [_ <-].
      destruct Hn as [Hn | Hn]; congruence.
Qed.

Lemma stack_inside_strings_witness :
  inString (analyzeState (new_healer None) ("{" ++ quote ++ "a")) = true
  /\ stack (analyzeState (new_healer None) ("{" ++ quoted "a"))
     = [mkFrame "}" true ["a"] (Some "a")].
Proof.
  split; [reflexivity|].
  exact (proj1 (proj2 (proj2 (proj2 (proj2
           (stack_inside_strings (new_healer None) ("{" ++ quote ++ "a") dquote
              eq_refl)))))
           [] (mkFrame "}" true [] None) eq_refl eq_refl eq_refl eq_refl eq_refl).
Defined.

(** ** Conforming schemas *)

Lemma conforms_required (ok : Json -> bool) (members : list (string * Json))
    (r : Json) :
  conforms ok (JObj members) = true ->
  assoc "required" members = Some r -> required_ok ok r = true.
Proof.
  induction members as [|[k x] members IH]; simpl; [discriminate|].
  intros H Ha. apply andb_true_iff in H as [Hx Hrest].
  destruct (k =? "required"); [now injection Ha as <- | auto].
Qed.

Lemma conforms_items (ok : Json -> bool) (members : list (string * Json))
    (it : Json) :
  conforms ok (JObj members) = true ->
  assoc "items" members = Some it -> conforms ok it = true.
Proof.
  induction members as [|[k x] members IH]; simpl; [discriminate|].
  intros H Ha. apply andb_true_iff in H as [Hx Hrest].
  destruct (String.eqb_spec k "items") as [-> | Hk]; [|auto].
  simpl in Hx. now injection Ha as <-.
Qed.

Lemma conforms_properties (ok : Json -> bool) (members : list (string * Json))
    (p c : Json) (key : string) :
  conforms ok (JObj members) = true ->
  assoc "properties" members = Some p ->
  get_computed p key = Some c -> conforms ok c = true.
Proof.
  induction members as [|[k x] members IH]; simpl; [discriminate|].
  intros H Ha Hc. apply andb_true_iff in H as [Hx Hrest].
  destruct (String.eqb_spec k "properties") as [-> | Hk]; [|eauto].
  simpl in Hx. injection Ha as <-. clear IH Hrest.
  destruct x as [| | | |elements|props]; simpl in Hc; try discriminate.
  - destruct (array_index key) as [i|]; [|discriminate].
    revert i Hc. induction elements as [|e es IHe]; intros [|i] Hc;
      simpl in Hc; try discriminate;
      apply andb_true_iff in Hx as [He Hes].
    + now injection Hc as <-.
    + eauto.
  - induction props as [|[k' v] props IHp]; simpl in Hc; [discriminate|].
    apply andb_true_iff in Hx as [Hv Hps].
    destruct (k' =? key); [now injection Hc as <- | auto].
Qed.

Lemma descend_truthy (cs next : Json) (frame : StackFrame) :
  descend cs frame = Some next -> truthy next = true.
Proof.
  unfold descend. intros H.
  destruct (negb (isObject frame)
            && match get cs "type" with
               | Some (JStr t) => t =? "array"
               | _ => false
               end
            && truthy_opt (get cs "items")) eqn:E1.
  - apply andb_true_iff in E1 as [_ E1]. rewrite H in E1. exact E1.
  - destruct (isObject frame && truthy_opt (get cs "properties")); [|discriminate].
    destruct (get cs "properties") as [p|]; [|discriminate].
    destruct (currentKey frame) as [key|]; [|discriminate].
    destruct (negb (key =? "") && truthy_opt (get_computed p key)) eqn:E2;
      [|discriminate].
    apply andb_true_iff in E2 as [_ E2]. rewrite H in E2. exact E2.
Qed.

Lemma descend_conforms (ok : Json -> bool) (cs next : Json) (frame : StackFrame) :
  conforms ok cs = true -> descend cs frame = Some next ->
  conforms ok next = true.
Proof.
  unfold descend. intros Hc H.
  destruct cs as [| | | | |members]; try (simpl in H; rewrite ?andb_false_r in H;
                                          discriminate).
  simpl get in H.
  destruct (negb (isObject frame)
            && match assoc "type" members with
               | Some (JStr t) => t =? "array"
               | _ => false
               end
            && truthy_opt (assoc "items" members)).
  - eapply conforms_items; eauto.
  - destruct (isObject frame && truthy_opt (assoc "properties" members));
      [|discriminate].
    destruct (assoc "properties" members) as [p|] eqn:Hp; [|discriminate].
    destruct (currentKey frame) as [key|]; [|discriminate].
    destruct (negb (key =? "") && truthy_opt (get_computed p key));
      [|discriminate].
    eapply conforms_properties; eauto.
Qed.

Lemma governing_conforms (ok : Json -> bool) (path : list StackFrame)
    (cs sub : Json) :
  conforms ok cs = true -> governing cs path = Some sub ->
  conforms ok sub = true.
Proof.
  revert cs. induction path as [|frame path IH]; intros cs Hc H; simpl in H.
  - now injection H as <-.
  - destruct (descend cs frame) as [next|] eqn:Hd; [|discriminate].
    eapply IH; [|exact H]. eapply descend_conforms; eauto.
Qed.

Lemma governing_truthy (path : list StackFrame) (cs sub : Json) :
  truthy cs = true -> governing cs path = Some sub -> truthy sub = true.
Proof.
  revert cs. induction path as [|frame path IH]; intros cs Hc H; simpl in H.
  - now injection H as <-.
  - destruct (descend cs frame) as [next|] eqn:Hd; [|discriminate].
    eapply IH; [|exact H]. eapply descend_truthy; eauto.
Qed.

(** [missing_at] returns the missing names whenever it returns. *)
Lemma missing_at_returns (sub : Json) (frame : StackFrame) (ks : list Json) :
  missing_at sub frame = Ok ks -> ks = required_missing sub frame.
Proof.
  unfold missing_at, required_missing.
  destruct (get sub "type") as [[| | |t| |]|]; try (now intros [= <-]).
  destruct (get sub "required") as [r|]; [|now intros [= <-]].
  destruct (String.eqb t "object"); simpl.
  - destruct r as [| | | |names|]; simpl;
      repeat match goal with
             | |- context [if ?b then _ else _] => destruct b
             end;
      first [discriminate | now intros [= <-]].
  - destruct r; now intros [= <-].
Qed.

Lemma missing_at_conforms (ok : Json -> bool) (sub : Json) (frame : StackFrame) :
  conforms ok sub = true ->
  missing_at sub frame = Ok (required_missing sub frame)
  /\ forallb ok (required_missing sub frame) = true.
Proof.
  intros Hc. unfold missing_at, required_missing.
  destruct sub as [| | | | |members]; try (simpl; auto; fail).
  simpl get.
  destruct (assoc "type" members) as [[| | |t| |]|]; try (simpl; auto; fail).
  destruct (assoc "required" members) as [r|] eqn:Hr; [|simpl; auto].
  pose proof (conforms_required ok members r Hc Hr) as Hok.
  destruct (String.eqb t "object"); simpl.
  - destruct r as [| | | |names|]; simpl in *;
      try (apply negb_true_iff in Hok; rewrite ?Hok); auto; try discriminate.
    split; [reflexivity|].
    apply forallb_forall. intros x Hx. apply filter_In in Hx as [Hx _].
    rewrite forallb_forall in Hok. auto.
  - destruct r; auto.
Qed.

(** ** The loop of [getMissingRequiredKeys] walks down to the governing schema *)

Lemma skipn_nth_error {A : Type} (l : list A) (i : nat) (x : A) :
  nth_error l i = Some x -> skipn i l = x :: skipn (S i) l.
Proof.
  revert i. induction l as [|y l IH]; intros [|i] H; simpl in *;
    try discriminate.
  - now injection H as ->.
  - now apply IH.
Qed.

Lemma firstn_snoc_nth {A : Type} (l : list A) (i : nat) (x : A) :
  nth_error l i = Some x -> firstn (S i) l = (firstn i l ++ [x])%list.
Proof.
  revert i. induction l as [|y l IH]; intros [|i] H; simpl in *;
    try discriminate.
  - now injection H as ->.
  - f_equal. now apply IH.
Qed.

Lemma schema_walk_governing (st : list StackFrame) (d : nat) (frame : StackFrame) :
  nth_error st d = Some frame ->
  forall steps i cs,
    i + steps = S d -> i <= d -> truthy cs = true ->
    schema_walk st d steps i (Some cs) =
    match governing cs (firstn (d - i) (skipn i st)) with
    | Some sub => missing_at sub frame
    | None => Ok []
    end.
Proof.
  intros Hd. induction steps as [|steps IH]; intros i cs Hsum Hle Ht; [lia|].
  simpl. rewrite Ht.
  destruct (Nat.eqb_spec i d) as [-> | Hne].
  - rewrite Hd, Nat.sub_diag. reflexivity.
  - destruct (nth_error st i) as [fi|] eqn:Hi.
    + rewrite (skipn_nth_error st i fi Hi).
      replace (d - i) with (S (d - S i)) by lia. simpl.
      destruct (descend cs fi) as [next|] eqn:Hn.
      * apply IH; [lia | lia | eapply descend_truthy; eauto].
      * destruct steps; [lia | reflexivity].
    + apply nth_error_None in Hi.
      assert (d < List.length st) by (apply nth_error_Some; congruence). lia.
Qed.

Lemma getMissingRequiredKeys_governing (h : StreamHealer) (d : nat)
    (frame : StackFrame) :
  nth_error (stack h) d = Some frame ->
  getMissingRequiredKeys h d =
  match governing_at h d with
  | Some sub => missing_at sub frame
  | None => Ok []
  end.
Proof.
  intros Hd. unfold getMissingRequiredKeys, governing_at.
  destruct (schema h) as [root|]; unfold truthy_opt; [|reflexivity].
  destruct (truthy root) eqn:Ht; [|reflexivity].
  rewrite (schema_walk_governing (stack h) d frame Hd (S d) 0 root);
    [|lia|lia|exact Ht].
  now rewrite Nat.sub_0_r.
Qed.

Lemma governing_at_truthy (h : StreamHealer) (d : nat) (sub : Json) :
  governing_at h d = Some sub -> truthy_opt (schema h) = true.
Proof.
  unfold governing_at. destruct (schema h) as [root|]; [|discriminate].
  simpl. now destruct (truthy root).
Qed.

Lemma map_null_entry (missing : list Json) :
  map_result null_entry missing
  = if forallb renders missing
    then Ok (map (fun k => quoted (rendered k) ++ ":null") missing)
    else TypeError.
Proof.
  induction missing as [|k missing IH]; [reflexivity|].
  cbn [map_result forallb map].
  unfold null_entry at 1, renders at 1, rendered at 1.
  destruct (to_string k); cbn [bind andb]; [|reflexivity].
  rewrite IH. destruct (forallb renders missing); reflexivity.
Qed.

Lemma null_injection_code (frame : StackFrame) (missing : list Json) :
  match missing with
  | [] => Ok ""
  | _ =>
      bind (map_result null_entry missing)
           (fun entries =>
              Ok ((if negb (Nat.eqb (List.length (keysSeen frame)) 0)
                   then "," else "")
                  ++ join "," entries))
  end
  = if forallb renders missing
    then Ok (null_injection frame missing)
    else TypeError.
Proof.
  unfold null_injection. destruct missing as [|k missing]; [reflexivity|].
  rewrite map_null_entry.
  destruct (forallb renders (k :: missing)); [|reflexivity].
  cbn [bind]. now destruct (keysSeen frame).
Qed.

Lemma missing_at_cases (sub : Json) (frame : StackFrame) :
  missing_at sub frame
  = match get sub "type", get sub "required" with
    | Some (JStr t), Some required =>
        if (t =? "object") && truthy required
        then match required with
             | JArr names => Ok (filter (not_seen frame) names)
             | _ => TypeError
             end
        else Ok []
    | _, _ => Ok []
    end.
Proof.
  unfold missing_at, filter_required.
  destruct (get sub "type") as [[| | |t| |]|]; reflexivity.
Qed.

(** One turn of the loop of [finish], in closed form. *)
Lemma frame_closure_closed (h : StreamHealer) (d : nat) (frame : StackFrame) :
  nth_error (stack h) d = Some frame ->
  frame_closure h d frame
  = if frame_raises h d frame then TypeError else Ok (frame_piece h d frame).
Proof.
  intros Hd. unfold frame_closure, frame_piece, missing_of, frame_raises.
  rewrite (getMissingRequiredKeys_governing h d frame Hd).
  destruct (isObject frame); cbn [andb]; [|reflexivity].
  destruct (governing_at h d) as [sub|] eqn:Hg.
  - rewrite (governing_at_truthy h d sub Hg), missing_at_cases.
    unfold required_missing.
    destruct (get sub "type") as [[| | |t| |]|]; try reflexivity.
    destruct (get sub "required") as [r|]; [|reflexivity].
    destruct (t =? "object") eqn:Et; cbn [andb];
      [|destruct r; reflexivity].
    destruct (truthy r) eqn:Hr.
    + destruct r as [| | | |names|]; try reflexivity.
      cbn [bind]. rewrite null_injection_code.
      destruct (forallb renders (filter (not_seen frame) names)); reflexivity.
    + destruct r; try reflexivity; discriminate.
  - destruct (truthy_opt (schema h)); reflexivity.
Qed.

(** One turn of the loop of [finish], when it returns. *)
Lemma frame_closure_returns (h : StreamHealer) (d : nat) (frame : StackFrame)
    (piece : string) :
  nth_error (stack h) d = Some frame ->
  frame_closure h d frame = Ok piece -> piece = frame_piece h d frame.
Proof.
  intros Hd. rewrite (frame_closure_closed h d frame Hd).
  destruct (frame_raises h d frame); [discriminate | now intros [= <-]].
Qed.

(** One turn of the loop of [finish] under a conforming schema whose
    required names can be converted to strings. *)
Lemma frame_closure_conforms (ok : Json -> bool) (h : StreamHealer) (d : nat)
    (frame : StackFrame) :
  (forall k, ok k = true -> renders k = true) ->
  schema_conforms ok (schema h) = true ->
  nth_error (stack h) d = Some frame ->
  frame_closure h d frame = Ok (frame_piece h d frame)
  /\ forallb ok (missing_of h d frame) = true.
Proof.
  intros Hok Hc Hd. rewrite (frame_closure_closed h d frame Hd).
  unfold frame_raises, missing_of.
  destruct (isObject frame); cbn [andb]; [|auto].
  destruct (governing_at h d) as [sub|] eqn:Hg; [|auto].
  assert (Hs : conforms ok sub = true).
  { unfold governing_at in Hg. destruct (schema h) as [root|]; [|discriminate].
    destruct (truthy root); [|discriminate].
    eapply governing_conforms; eauto. }
  destruct (missing_at_conforms ok sub frame Hs) as [Hm Hall].
  split; [|exact Hall].
  rewrite missing_at_cases in Hm. unfold required_missing in Hall.
  destruct (get sub "type") as [[| | |t| |]|]; try reflexivity.
  destruct (get sub "required") as [r|]; [|reflexivity].
  destruct (t =? "object"); cbn [andb] in *; [|reflexivity].
  destruct (truthy r); [|reflexivity].
  destruct r as [| | | |names|]; try discriminate.
  assert (Hr : forallb renders (filter (not_seen frame) names) = true).
  { apply forallb_forall. intros k Hk. apply Hok.
    rewrite forallb_forall in Hall. now apply Hall. }
  now rewrite Hr.
Qed.

Lemma pieces_from_snoc (h : StreamHealer) (frames : list StackFrame)
    (d : nat) (f : StackFrame) :
  pieces_from h d (frames ++ [f]) =
  (pieces_from h d frames ++ [frame_piece h (d + List.length frames) f])%list.
Proof.
  revert d. induction frames as [|x frames IH]; intros d; simpl.
  - now rewrite Nat.add_0_r.
  - rewrite IH.
    now replace (d + S (List.length frames))
      with (S d + List.length frames) by lia.
Qed.

Lemma concat_all_app (a b : list string) :
  concat_all (a ++ b) = concat_all a ++ concat_all b.
Proof.
  induction a as [|x a IH]; simpl; [reflexivity|].
  now rewrite IH, append_assoc.
Qed.

Lemma firstn_length_lt {A : Type} (l : list A) (i : nat) (x : A) :
  nth_error l i = Some x -> List.length (firstn i l) = i.
Proof.
  intros H. apply firstn_length_le.
  assert (i < List.length l) by (apply nth_error_Some; congruence). lia.
Qed.

(** The loop of [finish] appends the pieces of the frames below [n], the
    innermost first. *)
Lemma finish_loop_pieces (h : StreamHealer) (n : nat) :
  n <= List.length (stack h) ->
  forall closure,
    (forall d frame, d < n -> nth_error (stack h) d = Some frame ->
                     frame_closure h d frame = Ok (frame_piece h d frame)) ->
    finish_loop h n closure =
    Ok (closure ++ concat_all (rev (pieces_from h 0 (firstn n (stack h))))).
Proof.
  induction n as [|i IH]; intros Hn closure Hall; simpl.
  - now rewrite append_nil_r.
  - destruct (nth_error (stack h) i) as [frame|] eqn:Hi.
    + rewrite (Hall i frame (Nat.lt_succ_diag_r i) Hi). simpl.
      rewrite IH; [|lia|intros; apply Hall; [lia|assumption]].
      change (match stack h with
              | [] => []
              | a :: l => a :: firstn i l
              end) with (firstn (S i) (stack h)).
      rewrite (firstn_snoc_nth (stack h) i frame Hi), pieces_from_snoc.
      rewrite rev_app_distr. simpl.
      rewrite (firstn_length_lt (stack h) i frame Hi), append_assoc.
      reflexivity.
    + apply nth_error_None in Hi. lia.
Qed.

Lemma finish_loop_returns (h : StreamHealer) (n : nat) :
  n <= List.length (stack h) ->
  forall closure tail,
    finish_loop h n closure = Ok tail ->
    tail = closure ++ concat_all (rev (pieces_from h 0 (firstn n (stack h)))).
Proof.
  induction n as [|i IH]; intros Hn closure tail; simpl.
  - rewrite append_nil_r. now intros [= <-].
  - destruct (nth_error (stack h) i) as [frame|] eqn:Hi; [|discriminate].
    destruct (frame_closure h i frame) as [piece|] eqn:Hp; simpl; [|discriminate].
    intros H. apply IH in H; [|lia]. subst tail.
    apply frame_closure_returns in Hp; [|exact Hi]. subst piece.
    change (match stack h with
            | [] => []
            | a :: l => a :: firstn i l
            end) with (firstn (S i) (stack h)).
    rewrite (firstn_snoc_nth (stack h) i frame Hi), pieces_from_snoc.
    rewrite rev_app_distr. simpl.
    rewrite (firstn_length_lt (stack h) i frame Hi), append_assoc.
    reflexivity.
Qed.

Lemma close_string_fields (h : StreamHealer) :
  schema (close_string h) = schema h
  /\ hasStartedJson (close_string h) = hasStartedJson h
  /\ inString (close_string h) = inString h.
Proof.
  unfold close_string. destruct (inString h) eqn:E; [|auto].
  destruct (top (stack h)) as [t|]; [|auto].
  destruct (isObject t); simpl; auto.
Qed.

Lemma finish_started (h : StreamHealer) :
  hasStartedJson h = true ->
  finish h =
  finish_loop (close_string h) (List.length (stack (close_string h)))
    (if inString h then quote else "").
Proof. intros H. unfold finish. rewrite H. reflexivity. Qed.

Lemma finish_conforms (ok : Json -> bool)
    (Hok : forall k, ok k = true -> renders k = true) (h : StreamHealer) :
  hasStartedJson h = true -> schema_conforms ok (schema h) = true ->
  finish h = Ok (null_tail h).
Proof.
  intros Hs Hc. rewrite (finish_started h Hs). unfold null_tail.
  rewrite finish_loop_pieces; [now rewrite firstn_all | lia |].
  intros d frame _ Hd. apply (frame_closure_conforms ok); [exact Hok| |exact Hd].
  destruct (close_string_fields h) as (-> & _). exact Hc.
Qed.

Lemma name_plain_renders (k : Json) : name_plain k = true -> renders k = true.
Proof. unfold name_plain. intros H. now apply andb_true_iff in H as [H _]. Qed.

Lemma renders_itself (k : Json) : renders k = true -> renders k = true.
Proof. trivial. Qed.

Lemma raises_from_snoc (h : StreamHealer) (frames : list StackFrame)
    (d : nat) (f : StackFrame) :
  raises_from h d (frames ++ [f])
  = raises_from h d frames || frame_raises h (d + List.length frames) f.
Proof.
  revert d. induction frames as [|x frames IH]; intros d; cbn [app raises_from].
  - now rewrite Nat.add_0_r, orb_false_r.
  - rewrite IH, orb_assoc. cbn [List.length].
    now replace (d + S (List.length frames))
      with (S d + List.length frames) by lia.
Qed.

(** The loop of [finish], in closed form: it raises when a frame below
    [n] does, and returns the pieces of these frames otherwise. *)
Lemma finish_loop_closed (h : StreamHealer) (n : nat) :
  n <= List.length (stack h) ->
  forall closure,
    finish_loop h n closure
    = if raises_from h 0 (firstn n (stack h)) then TypeError
      else Ok (closure ++ concat_all (rev (pieces_from h 0 (firstn n (stack h))))).
Proof.
  induction n as [|i IH]; intros Hn closure.
  - cbn. now rewrite append_nil_r.
  - cbn [finish_loop].
    destruct (nth_error (stack h) i) as [frame|] eqn:Hi.
    + rewrite (firstn_snoc_nth (stack h) i frame Hi), raises_from_snoc,
        pieces_from_snoc, (firstn_length_lt (stack h) i frame Hi).
      cbn [Nat.add]. rewrite (frame_closure_closed h i frame Hi).
      destruct (frame_raises h i frame); cbn [bind].
      * now rewrite orb_true_r.
      * rewrite IH by lia. rewrite orb_false_r.
        destruct (raises_from h 0 (firstn i (stack h))); [reflexivity|].
        rewrite rev_app_distr. cbn [rev app concat_all fold_right].
        now rewrite append_assoc.
    + apply nth_error_None in Hi. lia.
Qed.

Lemma finish_closed (h : StreamHealer) :
  hasStartedJson h = true ->
  finish h = if finish_raises h then TypeError else Ok (null_tail h).
Proof.
  intros Hs. rewrite (finish_started h Hs).
  rewrite finish_loop_closed by lia.
  unfold finish_raises, null_tail. now rewrite firstn_all.
Qed.

Lemma finish_returns (h : StreamHealer) (tail : string) :
  hasStartedJson h = true -> finish h = Ok tail -> tail = null_tail h.
Proof.
  intros Hs. rewrite (finish_started h Hs). intros H.
  apply finish_loop_returns in H; [|lia].
  now rewrite firstn_all in H.
Qed.

(** ** Schema healing *)

(** C2, at the failing input: [properties.b.default] is ['x'] and
    [properties.c.default] is [42], both keys are missing from the root
    frame, whose governing sub-schema is the root schema, and [finish]
    injects [null] for both, where the claim (with the README and the
    test "should inject missing required fields with default values")
    requires the defaults. *)
Lemma default_not_injected :
  heal (Some schema_defaults) [text_a1]
  = (text_a1, Ok ("," ++ quoted "b" ++ ":null," ++ quoted "c" ++ ":null}")%string)
  /\ snd (heal (Some schema_defaults) [text_a1])
     <> Ok ("," ++ quoted "b" ++ ":" ++ quoted "x" ++ ","
            ++ quoted "c" ++ ":42}")%string.
Proof. split; [vm_compute; reflexivity | vm_compute; discriminate]. Qed.

(** X9.  The tail in closed form.  On a started healer [finish] raises
    when some frame makes it raise, and returns otherwise the closing
    quote of the open string followed, for every frame from the
    innermost to the root, by the entries of its missing required names,
    each with the value [null] whatever [default] the schema declares,
    and by its closer.  It returns that tail under every conforming
    schema whose required names can be converted to strings, and
    returns nothing else under any schema. *)
Theorem finish_injects_null (h : StreamHealer) :
  hasStartedJson h = true ->
  finish h = (if finish_raises h then TypeError else Ok (null_tail h))
  /\ (schema_conforms renders (schema h) = true -> finish h = Ok (null_tail h))
  /\ (forall tail, finish h = Ok tail -> tail = null_tail h).
Proof.
  intros Hs. split; [apply finish_closed, Hs|]. split.
  - apply (finish_conforms renders renders_itself). exact Hs.
  - intros tail. apply finish_returns. exact Hs.
Qed.

Lemma finish_injects_null_witness :
  hasStartedJson (fst (feed (new_healer (Some schema_defaults)) [text_a1])) = true
  /\ finish (fst (feed (new_healer (Some schema_defaults)) [text_a1]))
     = Ok ("," ++ quoted "b" ++ ":null," ++ quoted "c" ++ ":null}")%string.
Proof.
  split; [reflexivity|].
  exact (proj1 (proj2 (finish_injects_null
                         (fst (feed (new_healer (Some schema_defaults)) [text_a1]))
                         eq_refl)) eq_refl).
Defined.

(** C8, the claim as stated fails: with a [required] that is not an array,
    [finish] raises. *)
Lemma finish_raises_on_malformed_required :
  heal (Some schema_malformed) ["{"] = ("{", TypeError).
Proof. vm_compute. reflexivity. Qed.

Lemma forallb_false {A : Type} (f : A -> bool) (l : list A) :
  forallb f l = false -> exists x, In x l /\ f x = false.
Proof.
  induction l as [|x l IH]; [discriminate|]. cbn [forallb].
  destruct (f x) eqn:Hx; cbn [andb].
  - intros H. destruct (IH H) as (y & Hy & Hf). exists y. split; [now right|exact Hf].
  - intros _. exists x. split; [now left | exact Hx].
Qed.

(** When a frame makes [finish] raise, in the words of the schema. *)
Lemma frame_raises_iff (h : StreamHealer) (d : nat) (frame : StackFrame) :
  frame_raises h d frame = true <->
  isObject frame = true
  /\ exists sub required,
       governing_at h d = Some sub
       /\ get sub "type" = Some (JStr "object")
       /\ get sub "required" = Some required
       /\ truthy required = true
       /\ ((forall names, required <> JArr names)
           \/ exists names k,
                required = JArr names /\ In k names
                /\ not_seen frame k = true /\ renders k = false).
Proof.
  unfold frame_raises. split.
  - intros H. apply andb_true_iff in H as [Ho H]. split; [exact Ho|].
    destruct (governing_at h d) as [sub|]; [|discriminate].
    destruct (get sub "type") as [[| | |t| |]|] eqn:Ht; try discriminate.
    destruct (get sub "required") as [r|] eqn:Hr; [|discriminate].
    apply andb_true_iff in H as [H Hn]. apply andb_true_iff in H as [Et Htr].
    apply String.eqb_eq in Et. subst t.
    exists sub, r. repeat split; try assumption.
    destruct r as [| | | |names|]; try (left; intros names; discriminate).
    right. apply negb_true_iff, forallb_false in Hn as (k & Hk & Hf).
    apply filter_In in Hk as [Hk Hu]. exists names, k. auto.
  - intros (Ho & sub & r & -> & -> & -> & Htr & Hcase). rewrite Ho, Htr.
    cbn [andb String.eqb Ascii.eqb].
    change ("object" =? "object") with true. cbn [andb].
    destruct Hcase as [Hna | (names & k & -> & Hk & Hu & Hf)].
    + destruct r; try reflexivity. now destruct (Hna items).
    + apply negb_true_iff.
      destruct (forallb renders (filter (not_seen frame) names)) eqn:Hall;
        [|reflexivity].
      rewrite forallb_forall in Hall.
      rewrite (Hall k) in Hf; [discriminate|]. apply filter_In. auto.
Qed.

Lemma raises_from_iff (h : StreamHealer) (frames : list StackFrame) :
  forall d0,
    raises_from h d0 frames = true <->
    exists i frame, nth_error frames i = Some frame
                    /\ frame_raises h (d0 + i) frame = true.
Proof.
  induction frames as [|f frames IH]; intros d0; cbn [raises_from].
  - split; [discriminate|]. intros ([|i] & frame & H & _); discriminate.
  - rewrite orb_true_iff, IH. split.
    + intros [H | (i & frame & Hi & H)].
      * exists 0, f. rewrite Nat.add_0_r. auto.
      * exists (S i), frame. rewrite Nat.add_succ_r. auto.
    + intros ([|i] & frame & Hi & H).
      * injection Hi as <-. rewrite Nat.add_0_r in H. now left.
      * right. exists i, frame. rewrite Nat.add_succ_r in H. auto.
Qed.

(** C8, amended.  [finish] returns for every input when there is no
    schema or the schema conforms to [interface JsonSchema], every
    [required] being falsy or an array of values that can be converted to
    strings, as strings can.  On a started healer it raises exactly when,
    the pending key of an open string counted as seen, some open object
    frame has a governing sub-schema typed [object] whose [required] is
    truthy and is not an array, or is an array with an unseen element
    whose conversion to a string raises; before the JSON has started it
    never raises.  Under any schema a frame whose governing sub-schema
    cannot be resolved is closed without injection. *)
Theorem finish_total_on_conforming_schemas :
  (forall s chunks,
      schema_conforms renders s = true ->
      exists tail, snd (heal s chunks) = Ok tail)
  /\ (forall h,
         hasStartedJson h = true ->
         (finish h = TypeError <->
          exists d frame sub required,
            nth_error (stack (close_string h)) d = Some frame
            /\ isObject frame = true
            /\ governing_at (close_string h) d = Some sub
            /\ get sub "type" = Some (JStr "object")
            /\ get sub "required" = Some required
            /\ truthy required = true
            /\ ((forall names, required <> JArr names)
                \/ exists names k,
                     required = JArr names /\ In k names
                     /\ not_seen frame k = true /\ renders k = false)))
  /\ (forall h, hasStartedJson h = false -> exists tail, finish h = Ok tail)
  /\ (forall h d frame,
         nth_error (stack h) d = Some frame -> governing_at h d = None ->
         frame_closure h d frame = Ok (String (char frame) "")).
Proof.
  assert (Hnot : forall h, hasStartedJson h = false ->
                           exists tail, finish h = Ok tail).
  { intros h Hs. unfold finish. rewrite Hs. simpl.
    destruct (Nat.eqb (String.length (buffer h)) 0); eauto. }
  split; [|split; [|split; [exact Hnot|]]].
  - intros s chunks Hc. unfold heal.
    destruct (feed (new_healer s) chunks) as [h outs] eqn:Hf. simpl.
    assert (Hsch : schema h = s)
      by (apply feed_schema in Hf; exact Hf).
    destruct (hasStartedJson h) eqn:Hs; [|now apply Hnot].
    exists (null_tail h). apply (finish_conforms renders renders_itself);
      [exact Hs|]. now rewrite Hsch.
  - intros h Hs. rewrite (finish_closed h Hs). unfold finish_raises.
    destruct (raises_from (close_string h) 0 (stack (close_string h))) eqn:Hr.
    + split; [intros _|reflexivity].
      apply raises_from_iff in Hr as (d & frame & Hd & Hf).
      cbn [Nat.add] in Hf.
      apply frame_raises_iff in Hf as (Ho & sub & r & H).
      exists d, frame, sub, r. tauto.
    + split; [discriminate|].
      intros (d & frame & sub & r & Hd & Ho & H).
      assert (Hf : frame_raises (close_string h) d frame = true)
        by (apply frame_raises_iff; split; [exact Ho|]; exists sub, r; exact H).
      assert (Ht : raises_from (close_string h) 0 (stack (close_string h)) = true)
        by (apply raises_from_iff; exists d, frame; auto).
      rewrite Ht in Hr. discriminate.
  - intros h d frame Hd Hg. unfold frame_closure.
    rewrite (getMissingRequiredKeys_governing h d frame Hd), Hg.
    destruct (isObject frame && truthy_opt (schema h)); reflexivity.
Qed.

Lemma finish_total_on_conforming_schemas_witness :
  schema_conforms renders (Some schema_defaults) = true
  /\ (exists tail,
        snd (heal (Some schema_defaults) [("so: {" ++ quoted "a")%string; ":1"])
        = Ok tail)
  /\ finish (fst (feed (new_healer
                          (Some (JObj [("type", JStr "object");
                                       ("required",
                                        JArr [JObj [("toString", JNum "1")]])])))
                   ["{"]))
     = TypeError
  /\ governing_at
       (fst (feed (new_healer (Some schema_ref)) [("{" ++ quoted "x" ++ ":{")%string]))
       1 = None
  /\ frame_closure
       (fst (feed (new_healer (Some schema_ref)) [("{" ++ quoted "x" ++ ":{")%string]))
       1
       (mkFrame "}" true [] None) = Ok "}".
Proof.
  split; [reflexivity|]. split; [|split; [|split; [vm_compute; reflexivity|]]].
  - exact (proj1 finish_total_on_conforming_schemas
             (Some schema_defaults) [("so: {" ++ quoted "a")%string; ":1"] eq_refl).
  - apply (proj1 (proj2 finish_total_on_conforming_schemas)); [reflexivity|].
    exists 0, (mkFrame "}" true [] None),
      (JObj [("type", JStr "object");
             ("required", JArr [JObj [("toString", JNum "1")]])]),
      (JArr [JObj [("toString", JNum "1")]]).
    repeat split.
    right. exists [JObj [("toString", JNum "1")]], (JObj [("toString", JNum "1")]).
    repeat split. now left.
  - apply (proj2 (proj2 (proj2 finish_total_on_conforming_schemas)));
      vm_compute; reflexivity.
Defined.

(** C3, at the failing input: on the schema and the input of the claim,
    and on the same schema with the types of the test "should resolve
    reference to definition", [finish] closes both objects and injects
    nothing, where the claim and the test require the entry of [id]: the
    walk of [getMissingRequiredKeys] stops on the node that carries the
    [$ref]. *)
Lemma ref_not_followed :
  heal (Some schema_ref) [text_user] = (text_user, Ok "}}")
  /\ heal (Some schema_ref_typed) [text_user] = (text_user, Ok "}}")
  /\ snd (heal (Some schema_ref) [text_user])
     <> Ok ("," ++ quoted "id" ++ ":null}}")%string.
Proof.
  split; [vm_compute; reflexivity|].
  split; [vm_compute; reflexivity | vm_compute; discriminate].
Qed.


Lemma fed_user (s : option Json) :
  feed (new_healer s) [text_user]
  = (mkHealer s "" true
       [mkFrame "}" true ["user"] (Some "user");
        mkFrame "}" true ["name"] (Some "name")]
       false false "",
     [text_user]).
Proof. vm_compute. reflexivity. Qed.

(** References are not read.  The resolver goes down through
    [properties[current_key]] and never reads [$ref], [definitions],
    [$defs] or [components]: when the property [user] of a root typed
    [object] is a node that carries a [$ref], whatever the reference and
    whatever else the root holds, the frame of [user] is closed without
    injection and [finish] returns the two closers; when the property holds
    the required names itself (typed [object]), [finish] injects the
    missing one. *)
Theorem ref_is_not_resolved (ref : Json) (extra : list (string * Json)) :
  heal (Some (JObj (("type", JStr "object")
                    :: ("required", JArr [JStr "user"])
                    :: ("properties", JObj [("user", JObj [("$ref", ref)])])
                    :: extra)))
       [text_user]
  = (text_user, Ok "}}")
  /\ heal (Some (JObj (("type", JStr "object")
                       :: ("required", JArr [JStr "user"])
                       :: ("properties",
                           JObj [("user",
                                  JObj [("type", JStr "object");
                                        ("required", JArr [JStr "name"; JStr "id"])])])
                       :: extra)))
          [text_user]
     = (text_user, Ok ("," ++ quoted "id" ++ ":null}}")%string).
Proof. split; unfold heal; rewrite fed_user; cbn; reflexivity. Qed.

(** C4, the claim as stated fails: without a [type] the schema injects
    nothing. *)
Lemma untyped_schema_injects_nothing :
  heal (Some schema_untyped) [text_a1] = (text_a1, Ok "}")
  /\ snd (heal (Some schema_untyped) [text_a1])
     <> Ok ("," ++ quoted "b" ++ ":null}")%string.
Proof. split; [vm_compute; reflexivity | vm_compute; discriminate]. Qed.

Lemma filter_not_seen_names (frame : StackFrame) (req : list string) :
  filter (not_seen frame) (map JStr req)
  = map JStr (filter (fun k => negb (set_has (keysSeen frame) k)) req).
Proof.
  induction req as [|k req IH]; simpl; [reflexivity|].
  destruct (set_has (keysSeen frame) k); simpl; now rewrite IH.
Qed.

Lemma map_null_entry_strings (names : list string) :
  map_result null_entry (map JStr names)
  = Ok (map (fun k => quoted k ++ ":null") names).
Proof.
  induction names as [|k names IH]; [reflexivity|].
  cbn [map map_result]. rewrite IH. reflexivity.
Qed.

Lemma fed_a1 (s : option Json) :
  feed (new_healer s) [text_a1]
  = (mkHealer s "" true [mkFrame "}" true ["a"] (Some "a")] false false "a",
     [text_a1]).
Proof. vm_compute. reflexivity. Qed.

(** C4, amended.  For a healer constructed with a schema typed [object]
    whose [required] lists the names [req], and fed the single chunk made
    of an opening brace, the key [a], a colon and the digit 1, [finish]
    returns the names of [req] other than [a], in the order of [req], each
    with [null], after a comma (the frame has seen the key [a]), then the
    closing brace; the bare closing brace when no name is missing.  With
    [required: ['a','b']] that is the entry of [b].  The same schema
    without its [type] injects nothing. *)
Theorem required_minus_seen_in_order (req : list string)
    (extra : list (string * Json)) :
  heal (Some (JObj (("type", JStr "object")
                    :: ("required", JArr (map JStr req)) :: extra)))
       [text_a1]
  = (text_a1,
     Ok (match filter (fun k => negb (k =? "a")) req with
         | [] => "}"
         | missing =>
             "," ++ join "," (map (fun k => quoted k ++ ":null") missing) ++ "}"
         end))
  /\ heal (Some (JObj [("type", JStr "object");
                       ("required", JArr [JStr "a"; JStr "b"])]))
          [text_a1]
     = (text_a1, Ok ("," ++ quoted "b" ++ ":null}")%string)
  /\ heal (Some (JObj [("required", JArr (map JStr req))])) [text_a1]
     = (text_a1, Ok "}").
Proof.
  split; [|split].
  - unfold heal. rewrite fed_a1.
    cbn -[filter map join null_entry map_result String.append].
    rewrite filter_not_seen_names. cbn [keysSeen].
    assert (E : filter (fun k => negb (set_has ["a"] k)) req
                = filter (fun k => negb (k =? "a")) req).
    { apply filter_ext. intros k. simpl. now rewrite orb_false_r. }
    rewrite E. clear E. rewrite map_null_entry_strings.
    destruct (filter (fun k => negb (k =? "a")) req) as [|k ks];
      [reflexivity|].
    cbn [map bind String.append]. reflexivity.
  - vm_compute. reflexivity.
  - unfold heal. rewrite fed_a1. cbn. reflexivity.
Qed.

(** ** The reader of JSON texts on examples *)

Example json_valid_accepts :
  map json_valid
    ["{}"; " [ ] "; "0"; "-0.5E+10"; quoted "a\ne\\";
     "{" ++ quoted "a" ++ ":[1,2.5e-3,true,null," ++ quoted "x" ++ "], "
         ++ quoted "b" ++ " : {} }";
     "[[],{}]"; "1e5"; "null"]
  = [true; true; true; true; true; true; true; true; true].
Proof. vm_compute. reflexivity. Qed.

Example json_valid_rejects :
  map json_valid
    [""; "{"; "[1,]"; "01"; "{" ++ quoted "a" ++ ":}"; "{" ++ quoted "a" ++ " 1}";
     "{a:1}"; "[1 2]"; "1e"; "+1"; ".5"; "[" ++ quoted "\x" ++ "]";
     "{}{}"; "[tru]"; "[" ++ quoted "\u12" ++ "]"; "{} x";
     "{" ++ quoted "a" ++ ":1,}"; "[" ++ String "034" "a]"]
  = [false; false; false; false; false; false; false; false; false; false;
     false; false; false; false; false; false; false; false].
Proof. vm_compute. reflexivity. Qed.

(** A prefix of a JSON text can be read. *)
Lemma json_prefix_scans (text : string) :
  json_prefix text -> exists st, scan initial text = Some st.
Proof.
  intros (rest & H). unfold json_valid in H.
  destruct (scan initial (text ++ rest)) as [st|] eqn:E; [|discriminate].
  clear H. revert E. generalize initial.
  induction text as [|c text IH]; intros st0 E; simpl in *; [eauto|].
  destruct (step st0 c); [eauto | discriminate].
Qed.

(** ** The scanner seen from the innermost frame *)

Lemma analyzeChar_view (h : StreamHealer) (c : ascii) :
  view_of (analyzeChar h c) = scan_top (view_of h) c.
Proof.
  destruct h as [sch buf started stk inS esc pending].
  unfold view_of, scan_top, analyzeChar. simpl.
  destruct (stack_view stk) as [E | (below & t & E)]; subst stk.
  - simpl.
    repeat match goal with
           | |- context [if ?b then _ else _] => destruct b; simpl
           end; reflexivity.
  - rewrite top_snoc, !update_top_snoc, pop_snoc, rev_unit. unfold push.
    repeat match goal with
           | |- context [if ?b then _ else _] => destruct b eqn:?; simpl
           end;
      rewrite ?rev_unit; try reflexivity.
Qed.

Lemma analyzeState_view (text : string) (h : StreamHealer) :
  view_of (analyzeState h text) = scan_view (view_of h) text.
Proof.
  revert h. induction text as [|c text IH]; intros h; simpl; [reflexivity|].
  now rewrite IH, analyzeChar_view.
Qed.

(** ** One character, read by both *)

Lemma char_cases (c : ascii) :
  c = dquote \/ c = "\"%char \/ c = ":"%char \/ c = ","%char
  \/ c = "{"%char \/ c = "["%char \/ c = "}"%char \/ c = "]"%char
  \/ ((c =? dquote)%char = false /\ (c =? "\")%char = false
      /\ (c =? ":")%char = false /\ (c =? ",")%char = false
      /\ (c =? "{")%char = false /\ (c =? "[")%char = false
      /\ (c =? "}")%char = false /\ (c =? "]")%char = false).
Proof.
  destruct (Ascii.eqb_spec c dquote); [auto|].
  destruct (Ascii.eqb_spec c "\"); [auto|].
  destruct (Ascii.eqb_spec c ":"); [auto|].
  destruct (Ascii.eqb_spec c ","); [auto 6|].
  destruct (Ascii.eqb_spec c "{"); [auto 7|].
  destruct (Ascii.eqb_spec c "["); [auto 8|].
  destruct (Ascii.eqb_spec c "}"); [auto 9|].
  destruct (Ascii.eqb_spec c "]"); [auto 10|].
  do 8 right. repeat split; reflexivity.
Qed.

Ltac split_bools :=
  repeat match goal with
         | H : (_ && _) = true |- _ =>
             apply andb_true_iff in H; destruct H
         | H : (_ || _) = true |- _ =>
             apply orb_true_iff in H; destruct H
         | H : Bool.eqb _ _ = true |- _ => apply eqb_prop in H
         | H : negb _ = true |- _ => apply negb_true_iff in H
         | H : (_ =? _)%char = true |- _ => apply Ascii.eqb_eq in H
         | H : (_ =? _)%string = true |- _ => apply String.eqb_eq in H
         end.

Ltac case_ifs H :=
  repeat match type of H with
         | context [if ?b then _ else _] => destruct b eqn:?
         | context [match ?x with _ => _ end] => destruct x eqn:?
         end.

Lemma set_add_cons (keys : list string) (k : string) :
  exists x rest, set_add keys k = x :: rest.
Proof.
  unfold set_add. destruct (set_has keys k) eqn:E.
  - destruct keys; [discriminate | eauto].
  - destruct keys; simpl; eauto.
Qed.

Lemma closer_ok_frame (a : ascii) (b : bool) (ks : list string)
    (k : option string) :
  closer_ok (mkFrame a b ks k) = (a =? (if b then "}" else "]"))%char.
Proof. reflexivity. Qed.

Lemma in_value_frame (a : ascii) (b : bool) (ks : list string)
    (k : option string) :
  in_value (mkFrame a b ks k)
  = implb b (negb (is_null k) && negb match ks with [] => true | _ => false end).
Proof. reflexivity. Qed.

Ltac close_agree :=
  rewrite ?closer_ok_frame, ?in_value_frame in *; simpl in *;
  try discriminate; split_bools; subst; simpl in *; try discriminate;
  unfold agree; simpl; rewrite ?closer_ok_frame, ?in_value_frame; simpl;
  repeat match goal with
         | |- context [set_add ?ks ?k] =>
             let x := fresh "x" in
             let l := fresh "l" in
             destruct (set_add_cons ks k) as (x & l & ->)
         end;
  try match goal with
      | |- context [match ?r with [] => _ | _ :: _ => _ end] =>
          is_var r; destruct r; simpl in *;
          rewrite ?closer_ok_frame, ?in_value_frame in *; split_bools
      end;
  simpl;
  repeat match goal with
         | H : ?x = true |- context [?x] => rewrite H
         end;
  simpl; try reflexivity.

Lemma literal_rest_cases (rest : string) :
  literal_rest rest = true ->
  In rest ["rue"; "ue"; "e"; "alse"; "lse"; "se"; "ull"; "ll"; "l"].
Proof.
  unfold literal_rest. intros H. apply existsb_exists in H as (x & Hx & E).
  apply String.eqb_eq in E. now subst x.
Qed.

Lemma top_at_literal (rest : string) (fs : list StackFrame) :
  top_at (PLiteral rest) fs = true -> literal_rest rest = true.
Proof.
  destruct fs; simpl; [auto|]. intros H. now apply andb_true_iff in H as [H _].
Qed.

Lemma literal_step_special (ctxs : list container) (rest : string) (c : ascii) :
  literal_rest rest = true ->
  c = dquote \/ c = "\"%char \/ c = ":"%char \/ c = ","%char
  \/ c = "{"%char \/ c = "["%char \/ c = "}"%char \/ c = "]"%char ->
  step (ctxs, PLiteral rest) c = None.
Proof.
  intros Hl Hc. apply literal_rest_cases in Hl. simpl in Hl.
  decompose [or] Hl; try contradiction; subst rest;
    decompose [or] Hc; subst c; reflexivity.
Qed.

Lemma agree_step_special (v : view) (ctxs : list container) (pos : position)
    (c : ascii) (st' : state) :
  c = dquote \/ c = "\"%char \/ c = ":"%char \/ c = ","%char
  \/ c = "{"%char \/ c = "["%char \/ c = "}"%char \/ c = "]"%char ->
  agree v (ctxs, pos) = true -> step (ctxs, pos) c = Some st' ->
  agree (scan_top v c) st' = true.
Proof.
  intros Hc Hag Hst.
  destruct v as [[[inS esc] pending] fs].
  unfold agree in Hag. split_bools.
  destruct pos as [| | | |s| |s|n|rest|].
  9: { rewrite literal_step_special in Hst;
       [discriminate | eapply top_at_literal; eassumption | exact Hc]. }
  all: unfold scan_top, step; unfold dquote in *.
  all: try (destruct s as [| |m]).
  all: try (destruct n).
  all: simpl in *; subst inS esc.
  all: decompose [or] Hc; subst c; clear Hc; vm_compute in Hst;
    try discriminate.
  all: case_ifs Hst; try discriminate; injection Hst as <-.
  all: destruct fs as [|[ch io ks ck] r]; simpl in *; try discriminate.
  all: try (destruct io); try (destruct ck); try (destruct ks); simpl in *;
    try discriminate.
  all: close_agree.
Qed.

Lemma agree_step_other (v : view) (ctxs : list container) (pos : position)
    (c : ascii) (st' : state) :
  (c =? dquote)%char = false /\ (c =? "\")%char = false
  /\ (c =? ":")%char = false /\ (c =? ",")%char = false
  /\ (c =? "{")%char = false /\ (c =? "[")%char = false
  /\ (c =? "}")%char = false /\ (c =? "]")%char = false ->
  agree v (ctxs, pos) = true -> step (ctxs, pos) c = Some st' ->
  agree (scan_top v c) st' = true.
Proof.
  intros (E1 & E2 & E3 & E4 & E5 & E6 & E7 & E8) Hag Hst.
  destruct v as [[[inS esc] pending] fs].
  unfold agree in Hag. split_bools.
  unfold scan_top. rewrite E1, E2, E3, E4, E5, E6, E7, E8. simpl.
  destruct pos as [| | | |s| |s|n|rest|].
  9: (pose proof (top_at_literal _ _ H1) as Hl;
      apply literal_rest_cases in Hl; simpl in Hl;
      decompose [or] Hl; try contradiction; subst rest).
  all: unfold step, value_start, after_value, string_char, num_step in Hst.
  all: try (destruct s as [| |m]).
  all: try (destruct n).
  all: rewrite ?E1, ?E2, ?E3, ?E4, ?E5, ?E6, ?E7, ?E8 in Hst; simpl in *;
    subst inS esc.
  all: case_ifs Hst; try discriminate; injection Hst as <-.
  all: destruct fs as [|[ch io ks ck] r]; simpl in *; try discriminate.
  all: try (destruct io); try (destruct ck); try (destruct ks); simpl in *;
    try discriminate.
  all: close_agree.
Qed.

Lemma agree_step (v : view) (st st' : state) (c : ascii) :
  agree v st = true -> step st c = Some st' ->
  agree (scan_top v c) st' = true.
Proof.
  destruct st as [ctxs pos]. intros Hag Hst.
  destruct (char_cases c) as [H|[H|[H|[H|[H|[H|[H|[H|H]]]]]]]];
    try (eapply agree_step_other; eassumption);
    eapply agree_step_special; try eassumption; auto 10.
Qed.

Lemma agree_scan (text : string) (v : view) (st st' : state) :
  agree v st = true -> scan st text = Some st' ->
  agree (scan_view v text) st' = true.
Proof.
  revert v st. induction text as [|c text IH]; intros v st Hag Hsc; simpl in *.
  - now injection Hsc as <-.
  - destruct (step st c) as [st1|] eqn:Hst; [|discriminate].
    eapply IH; [|exact Hsc]. eapply agree_step; eassumption.
Qed.

Lemma scan_append (a b : string) (st : state) :
  scan st (a ++ b) =
  match scan st a with
  | Some st' => scan st' b
  | None => None
  end.
Proof.
  revert st. induction a as [|c a IH]; intros st; simpl; [reflexivity|].
  destruct (step st c); [apply IH | reflexivity].
Qed.

(** ** The reader on the tail *)

Lemma scan_plain_name (ctxs : list container) (name : string) :
  plain_name name = true ->
  scan (ctxs, PKeyChars Plain) name = Some (ctxs, PKeyChars Plain).
Proof.
  induction name as [|c name IH]; simpl; [reflexivity|].
  intros H. apply andb_true_iff in H as [Hc Hn].
  unfold plain_char in Hc. split_bools.
  rewrite H1, H0, H. simpl. auto.
Qed.

Lemma scan_cons (st : state) (c : ascii) (text : string) :
  scan st (String c text) =
  match step st c with
  | Some st' => scan st' text
  | None => None
  end.
Proof. reflexivity. Qed.

Lemma scan_entry (outer : list container) (pos : position) (name : string) :
  pos = PObjectStart \/ pos = PKey ->
  plain_name name = true ->
  scan (InObject :: outer, pos) (quoted name ++ ":null")
  = Some (InObject :: outer, PAfter).
Proof.
  intros Hp Hn. unfold quoted, quote. rewrite !append_assoc.
  change (String dquote "" ++ name ++ String dquote "" ++ ":null")
    with (String dquote (name ++ String dquote "" ++ ":null")).
  assert (H1 : step (InObject :: outer, pos) dquote
               = Some (InObject :: outer, PKeyChars Plain))
    by (destruct Hp as [-> | ->]; reflexivity).
  rewrite scan_cons, H1, scan_append, (scan_plain_name _ name Hn).
  reflexivity.
Qed.

Lemma join_cons (sep x y : string) (rest : list string) :
  join sep (x :: y :: rest) = x ++ sep ++ join sep (y :: rest).
Proof. reflexivity. Qed.

Lemma scan_entries (outer : list container) (names : list Json) :
  names <> [] -> forallb name_plain names = true ->
  forall pos, pos = PObjectStart \/ pos = PKey ->
  scan (InObject :: outer, pos)
       (join "," (map (fun k => quoted (rendered k) ++ ":null") names))
  = Some (InObject :: outer, PAfter).
Proof.
  induction names as [|k names IH]; [congruence|].
  intros _ Hall pos Hp. simpl in Hall. apply andb_true_iff in Hall as [Hk Hall].
  unfold name_plain in Hk. apply andb_true_iff in Hk as [_ Hk].
  destruct names as [|k' names].
  - simpl. apply scan_entry; assumption.
  - cbn [map]. rewrite join_cons, scan_append.
    rewrite (scan_entry outer pos _ Hp Hk).
    rewrite scan_append.
    change (scan (InObject :: outer, PAfter) ",")
      with (Some (InObject :: outer, PKey)).
    cbv beta iota.
    apply IH; [discriminate | exact Hall | auto].
Qed.

Lemma step_closer_done (ctxs : list container) (pos : position) (c : ascii) :
  value_done pos = true ->
  c = ","%char \/ c = "}"%char \/ c = "]"%char ->
  step (ctxs, pos) c = after_value ctxs c.
Proof.
  intros Hd Hc. destruct pos as [| | | |s| |s|n|rest|]; try discriminate.
  - destruct n; try discriminate; decompose [or] Hc; subst c; reflexivity.
  - reflexivity.
Qed.


Lemma scan_piece_done (f : StackFrame) (piece : string)
    (outer : list container) (pos : position) :
  piece_of f piece -> closer_ok f = true -> in_value f = true ->
  value_done pos = true ->
  scan (kind f :: outer, pos) piece = Some (outer, PAfter).
Proof.
  intros (names & -> & Hall & Harr) Hc Hv Hd.
  destruct f as [ch io ks ck]. unfold kind, null_injection.
  rewrite closer_ok_frame in Hc. rewrite in_value_frame in Hv.
  cbn [char isObject keysSeen currentKey] in *.
  apply Ascii.eqb_eq in Hc. subst ch.
  destruct io; cbn [implb] in *.
  - destruct ck; [|discriminate]. destruct ks as [|k0 ks]; [discriminate|].
    destruct names as [|n names].
    + cbn [String.append].
      rewrite scan_cons, (step_closer_done _ pos "}" Hd); [reflexivity | auto].
    + rewrite append_assoc.
      change ("," ++ ?x) with (String "," x).
      rewrite scan_cons, (step_closer_done _ pos "," Hd) by auto.
      change (after_value (InObject :: outer) ",")
        with (Some (InObject :: outer, PKey)).
      cbv beta iota.
      rewrite scan_append, scan_entries;
        [reflexivity | discriminate | exact Hall | auto].
  - rewrite (Harr eq_refl). cbn [String.append].
    rewrite scan_cons, (step_closer_done _ pos "]" Hd); [reflexivity | auto].
Qed.

Lemma scan_piece_object_start (f : StackFrame) (piece : string)
    (outer : list container) :
  piece_of f piece -> closer_ok f = true ->
  isObject f = true -> no_keys f = true ->
  scan (InObject :: outer, PObjectStart) piece = Some (outer, PAfter).
Proof.
  intros (names & -> & Hall & _) Hc Ho Hk.
  destruct f as [ch io ks ck]. unfold null_injection, no_keys in *.
  rewrite closer_ok_frame in Hc.
  cbn [char isObject keysSeen currentKey] in *. subst io.
  apply Ascii.eqb_eq in Hc. subst ch.
  destruct ks; [|discriminate].
  destruct names as [|n names]; [reflexivity|].
  cbn [String.append].
  rewrite scan_append, scan_entries;
    [reflexivity | discriminate | exact Hall | auto].
Qed.

Lemma scan_piece_array_start (f : StackFrame) (piece : string)
    (outer : list container) :
  piece_of f piece -> closer_ok f = true -> isObject f = false ->
  scan (InArray :: outer, PArrayStart) piece = Some (outer, PAfter).
Proof.
  intros (names & -> & _ & Harr) Hc Ho.
  destruct f as [ch io ks ck]. rewrite closer_ok_frame in Hc.
  cbn [char isObject keysSeen currentKey] in *.
  subst io. apply Ascii.eqb_eq in Hc. subst ch.
  now rewrite (Harr eq_refl).
Qed.

Lemma kinds_match_cons (f : StackFrame) (fs : list StackFrame)
    (ctxs : list container) :
  kinds_match (f :: fs) ctxs = true ->
  exists outer, ctxs = kind f :: outer /\ kinds_match fs outer = true.
Proof.
  destruct ctxs as [|k outer]; simpl; [discriminate|].
  intros H. apply andb_true_iff in H as [Hk Hm].
  exists outer. split; [|exact Hm].
  f_equal. destruct (kind f), k; simpl in Hk; congruence.
Qed.

Lemma scan_pieces (fs : list StackFrame) (pieces : list string) :
  Forall2 piece_of fs pieces ->
  forall ctxs pos,
    kinds_match fs ctxs = true -> forallb closer_ok fs = true ->
    forallb in_value fs = true -> value_done pos = true ->
    exists st', scan (ctxs, pos) (concat_all pieces) = Some st'
                /\ accepting st' = true.
Proof.
  induction 1 as [|f piece fs pieces Hp _ IH]; intros ctxs pos Hk Hc Hv Hd.
  - destruct ctxs; [|discriminate]. exists ([], pos). split; [reflexivity|].
    destruct pos; try discriminate; [exact Hd | reflexivity].
  - apply kinds_match_cons in Hk as (outer & -> & Hk).
    simpl in Hc, Hv. apply andb_true_iff in Hc as [Hc Hcs].
    apply andb_true_iff in Hv as [Hv Hvs].
    cbn [concat_all fold_right].
    rewrite scan_append, (scan_piece_done f piece outer pos Hp Hc Hv Hd).
    apply IH; auto.
Qed.

Lemma Forall2_reverse {A B : Type} (R : A -> B -> Prop) (l : list A)
    (l' : list B) :
  Forall2 R l l' -> Forall2 R (rev l) (rev l').
Proof.
  induction 1 as [|x y l l' Hxy _ IH]; simpl; [constructor|].
  apply Forall2_app; [exact IH | repeat constructor; exact Hxy].
Qed.

Lemma pieces_from_shape (h : StreamHealer) (frames : list StackFrame) :
  schema_conforms name_plain (schema h) = true ->
  forall d,
    (forall i f, nth_error frames i = Some f ->
                 nth_error (stack h) (d + i) = Some f) ->
    Forall2 piece_of frames (pieces_from h d frames).
Proof.
  intros Hc. induction frames as [|f frames IH]; intros d Hnth; simpl;
    constructor.
  - exists (missing_of h d f). split; [reflexivity|]. split.
    + apply (frame_closure_conforms name_plain h d f name_plain_renders Hc).
      specialize (Hnth 0 f eq_refl). now rewrite Nat.add_0_r in Hnth.
    + intros Ho. unfold missing_of. now rewrite Ho.
  - apply IH. intros i g Hi. specialize (Hnth (S i) g Hi).
    now replace (S d + i) with (d + S i) by lia.
Qed.

Lemma tail_pieces_shape (h : StreamHealer) :
  schema_conforms name_plain (schema h) = true ->
  Forall2 piece_of (rev (stack h)) (rev (pieces_from h 0 (stack h))).
Proof.
  intros Hc. apply Forall2_reverse, pieces_from_shape; auto.
Qed.

(** Step 1 of [finish], seen from the innermost frame. *)
Lemma close_string_view (h : StreamHealer) :
  rev (stack (close_string h)) =
  if inString h then
    match rev (stack h) with
    | t :: r =>
        if isObject t
        then mkFrame (char t) (isObject t)
               (set_add (keysSeen t) (pendingKeyBuffer h)) (currentKey t) :: r
        else t :: r
    | [] => []
    end
  else rev (stack h).
Proof.
  unfold close_string. destruct (inString h); [|reflexivity].
  destruct (stack_view (stack h)) as [E | (below & t & E)]; rewrite E.
  - simpl. now rewrite E.
  - rewrite top_snoc, rev_unit. destruct (isObject t) eqn:Ho; simpl.
    + now rewrite update_top_snoc, rev_unit, Ho.
    + now rewrite E, rev_unit.
Qed.

(** From a closable place the tail completes the text. *)
Lemma scan_null_tail (h : StreamHealer) (ctxs : list container)
    (pos : position) :
  schema_conforms name_plain (schema h) = true ->
  agree (view_of h) (ctxs, pos) = true -> closable pos = true ->
  exists st', scan (ctxs, pos) (null_tail h) = Some st'
              /\ accepting st' = true.
Proof.
  intros Hc Hag Hcl. unfold null_tail.
  assert (Hc1 : schema_conforms name_plain (schema (close_string h)) = true)
    by (destruct (close_string_fields h) as (-> & _); exact Hc).
  pose proof (tail_pieces_shape (close_string h) Hc1) as Hp.
  rewrite close_string_view in Hp.
  unfold view_of, agree in Hag.
  apply andb_true_iff in Hag as [Hag Hbelow].
  apply andb_true_iff in Hag as [Hag Htop].
  apply andb_true_iff in Hag as [Hag Hesc].
  apply andb_true_iff in Hag as [Hag HinS].
  apply andb_true_iff in Hag as [Hkinds Hclosers].
  apply eqb_prop in HinS.
  set (pieces := rev (pieces_from (close_string h) 0 (stack (close_string h)))) in *.
  clearbody pieces. clear Hc Hc1 Hesc.
  rewrite HinS in *. clear HinS.
  destruct (rev (stack h)) as [|t r] eqn:Er.
  - (* no open container *)
    assert (Hp' : Forall2 piece_of [] pieces)
      by (destruct (in_string_pos pos); exact Hp).
    destruct pos as [| | | |s| |s|n|rest|]; try discriminate;
      try (destruct s; try discriminate);
      cbn [in_string_pos String.append];
      try (rewrite scan_append;
           change (scan (ctxs, PStringChars Plain) quote)
             with (Some (ctxs, PAfter)); cbv beta iota);
      eapply scan_pieces; eauto.
  - cbn [tl] in Hbelow. cbn [forallb] in Hclosers.
    apply andb_true_iff in Hclosers as [Hct Hcr].
    apply kinds_match_cons in Hkinds as (outer & -> & Hk).
    destruct pos as [| | | |s| |s|n|rest|]; try discriminate;
      try (destruct s; try discriminate);
      cbn [in_string_pos String.append top_at] in *.
    + (* after an opening bracket *)
      inversion Hp as [|? piece ? pieces' Hpt Hps]; subst.
      apply negb_true_iff in Htop.
      cbn [concat_all fold_right]. rewrite scan_append.
      unfold kind. rewrite Htop.
      rewrite (scan_piece_array_start t piece outer Hpt Hct Htop).
      eapply scan_pieces; eauto.
    + (* after an opening brace *)
      inversion Hp as [|? piece ? pieces' Hpt Hps]; subst.
      apply andb_true_iff in Htop as [Htop Hnull].
      apply andb_true_iff in Htop as [Hobj Hnokeys].
      cbn [concat_all fold_right]. rewrite scan_append.
      unfold kind. rewrite Hobj.
      rewrite (scan_piece_object_start t piece outer Hpt Hct Hobj Hnokeys).
      eapply scan_pieces; eauto.
    + (* inside a string value *)
      rewrite scan_append.
      change (scan (kind t :: outer, PStringChars Plain) quote)
        with (Some (kind t :: outer, PAfter)). cbv beta iota.
      destruct (isObject t) eqn:Ho.
      * eapply scan_pieces; [exact Hp | | | | reflexivity].
        -- cbn [kinds_match]. unfold kind at 1. cbn [isObject].
           unfold kind. rewrite Ho, Hk. reflexivity.
        -- cbn [forallb]. rewrite closer_ok_frame.
           unfold closer_ok in Hct. rewrite Ho in *. now rewrite Hct, Hcr.
        -- cbn [forallb]. rewrite in_value_frame, Hbelow.
           unfold in_value in Htop. rewrite Ho in *. cbn [implb] in *.
           apply andb_true_iff in Htop as [Hkey _]. rewrite Hkey.
           destruct (set_add_cons (keysSeen t) (pendingKeyBuffer h))
             as (x & l & ->).
           reflexivity.
      * eapply scan_pieces; [exact Hp | | | | reflexivity].
        -- cbn [kinds_match]. now rewrite Hk, andb_true_r; destruct (kind t).
        -- cbn [forallb]. now rewrite Hct, Hcr.
        -- cbn [forallb]. now rewrite Htop, Hbelow.
    + (* after a number *)
      eapply scan_pieces; [exact Hp | | | | exact Hcl].
      * cbn [kinds_match]. now rewrite Hk, andb_true_r; destruct (kind t).
      * cbn [forallb]. now rewrite Hct, Hcr.
      * cbn [forallb]. now rewrite Htop, Hbelow.
    + (* after a value *)
      eapply scan_pieces; [exact Hp | | | | reflexivity].
      * cbn [kinds_match]. now rewrite Hk, andb_true_r; destruct (kind t).
      * cbn [forallb]. now rewrite Hct, Hcr.
      * cbn [forallb]. now rewrite Htop, Hbelow.
Qed.

(** ** The preamble, chunk by chunk *)

Lemma append_split (x y u v : string) :
  x ++ y = u ++ v ->
  (exists z, u = x ++ z /\ y = z ++ v) \/ (exists z, x = u ++ z /\ v = z ++ y).
Proof.
  revert u. induction x as [|c x IH]; intros u H; simpl in H.
  - left. exists u. auto.
  - destruct u as [|d u]; simpl in H.
    + right. exists (String c x). auto.
    + injection H as -> H. destruct (IH u H) as [(z & -> & ->) | (z & -> & ->)].
      * left. exists z. auto.
      * right. exists z. auto.
Qed.

Lemma concat_empty_sep (parts : list string) :
  String.concat "" parts = concat_all parts.
Proof.
  induction parts as [|x parts IH]; [reflexivity|].
  destruct parts as [|y parts].
  - simpl. now rewrite append_nil_r.
  - change (String.concat "" (x :: y :: parts))
      with (x ++ "" ++ String.concat "" (y :: parts)).
    rewrite IH. reflexivity.
Qed.

Lemma starts_with_opener_no_opener (p : string) :
  starts_with_opener p = true -> no_opener p = false.
Proof. destruct p as [|c p]; simpl; [discriminate|]. now intros ->. Qed.

Lemma process_waiting_keeps (s : option Json) (b chunk : string) :
  no_opener (b ++ chunk) = true ->
  String.length (b ++ chunk) <= MAX_PREAMBLE_BUFFER ->
  process (waiting s b) chunk = (waiting s (b ++ chunk), "").
Proof.
  intros Hno Hlen. unfold process, waiting. simpl.
  apply search_opener_none in Hno. rewrite Hno.
  apply Nat.ltb_ge in Hlen. now rewrite Hlen.
Qed.

Lemma process_waiting_begins (s : option Json) (b chunk pre : string)
    (c : ascii) (rest : string) :
  b ++ chunk = pre ++ String c rest ->
  no_opener pre = true -> is_opener c = true ->
  process (waiting s b) chunk
  = (analyzeState (begun s) (String c rest), String c rest).
Proof.
  intros E Hpre Hc. unfold process, waiting. cbn [hasStartedJson negb buffer set_buffer].
  cbn [schema stack inString isEscaped pendingKeyBuffer].
  rewrite E, (search_opener_first pre c rest Hpre Hc).
  unfold set_hasStartedJson, set_buffer.
  cbn [schema buffer hasStartedJson stack inString isEscaped pendingKeyBuffer].
  rewrite slice_append. reflexivity.
Qed.

Lemma feed_waiting (s : option Json) (preamble p : string) :
  no_opener preamble = true ->
  String.length preamble <= MAX_PREAMBLE_BUFFER ->
  starts_with_opener p = true ->
  forall chunks b,
    no_opener b = true ->
    b ++ concat_all chunks = preamble ++ p ->
    exists outs,
      feed (waiting s b) chunks = (analyzeState (begun s) p, outs)
      /\ concat_all outs = p.
Proof.
  intros Hpre Hlen Hp. induction chunks as [|chunk chunks IH]; intros b Hb E.
  - simpl in E. rewrite append_nil_r in E. subst b.
    rewrite no_opener_append, (starts_with_opener_no_opener p Hp) in Hb.
    now rewrite andb_false_r in Hb.
  - cbn [concat_all fold_right] in E. rewrite <- append_assoc in E.
    assert (Keep : forall z, preamble = (b ++ chunk) ++ z ->
                             concat_all chunks = z ++ p ->
                             exists outs,
                               feed (waiting s b) (chunk :: chunks)
                               = (analyzeState (begun s) p, outs)
                               /\ concat_all outs = p).
    { intros z Ez Ec.
      assert (Hno : no_opener (b ++ chunk) = true).
      { rewrite Ez, no_opener_append in Hpre.
        now apply andb_true_iff in Hpre as [Hpre _]. }
      assert (Hl : String.length (b ++ chunk) <= MAX_PREAMBLE_BUFFER).
      { rewrite Ez, length_append in Hlen. lia. }
      destruct (IH (b ++ chunk) Hno) as (outs & Hf & Ho).
      { exact E. }
      exists ("" :: outs). cbn [feed].
      rewrite (process_waiting_keeps s b chunk Hno Hl), Hf. auto. }
    destruct (append_split _ _ _ _ E) as [(z & Ez & Ec) | (z & Ez & Ec)].
    + exact (Keep z Ez Ec).
    + destruct z as [|c z].
      * rewrite append_nil_r in Ez. simpl in Ec.
        apply (Keep ""); [now rewrite append_nil_r | now rewrite Ec].
      * assert (Hc : is_opener c = true) by (rewrite Ec in Hp; exact Hp).
        exists (String c z :: chunks). cbn [feed].
        rewrite (process_waiting_begins s b chunk preamble c z Ez Hpre Hc).
        rewrite feed_started.
        -- split; [|now rewrite Ec].
           rewrite concat_empty_sep, <- analyzeState_append.
           unfold concat_all. now rewrite <- Ec.
        -- destruct (analyzeState_fields (String c z) (begun s)) as (_ & _ & ->).
           reflexivity.
Qed.

(** ** Well-formedness *)

(** C1, the claim as stated fails: the text made of an opening brace, the
    key [a] and a colon begins a JSON document, and its healed form, with
    the bare closing brace that [finish] returns, is not one. *)
Lemma dangling_colon_not_healed :
  json_prefix text_colon
  /\ heal None [text_colon] = (text_colon, Ok "}")
  /\ json_valid (text_colon ++ "}") = false.
Proof.
  split; [exists "1}"; vm_compute; reflexivity|].
  split; vm_compute; reflexivity.
Qed.

(** C1, amended.  For every input made of a preamble of at most 500
    characters without opener (so that the safety flush is not triggered)
    followed by a prefix [p] of a JSON document that begins with an opener
    and ends at a closable place (just after an opener, just after a
    complete value, or inside a string value between two characters), fed
    in any chunking to a fresh healer without schema or with a conforming
    schema whose required names need no escaping, [process] returns [p]
    in all, [finish] returns a tail, and [p] followed by the tail is a
    JSON document. *)
Theorem healed_prefix_is_json (s : option Json) (preamble p : string)
    (chunks : list string) :
  no_opener preamble = true ->
  String.length preamble <= MAX_PREAMBLE_BUFFER ->
  starts_with_opener p = true ->
  json_prefix p ->
  ends_closable p = true ->
  schema_conforms name_plain s = true ->
  concat_all chunks = preamble ++ p ->
  exists tail,
    heal s chunks = (p, Ok tail) /\ json_valid (p ++ tail) = true.
Proof.
  intros Hpre Hlen Hp _ Hend Hs E.
  destruct (feed_waiting s preamble p Hpre Hlen Hp chunks "" eq_refl E)
    as (outs & Hf & Ho).
  change (waiting s "") with (new_healer s) in Hf.
  set (h := analyzeState (begun s) p) in *.
  destruct (analyzeState_fields p (begun s)) as (Hsch & _ & Hst).
  fold h in Hsch, Hst. cbn [begun schema hasStartedJson] in Hsch, Hst.
  exists (null_tail h). split.
  - unfold heal. rewrite Hf, concat_empty_sep, Ho. f_equal.
    apply (finish_conforms name_plain name_plain_renders); [exact Hst | now rewrite Hsch].
  - unfold ends_closable in Hend. unfold json_valid.
    destruct (scan initial p) as [[ctxs pos]|] eqn:Hsc; [|discriminate].
    rewrite scan_append, Hsc.
    assert (Hag : agree (view_of h) (ctxs, pos) = true).
    { unfold h. rewrite analyzeState_view.
      eapply agree_scan; [|exact Hsc]. reflexivity. }
    destruct (scan_null_tail h ctxs pos) as (st' & -> & Hacc);
      [now rewrite Hsch | exact Hag | exact Hend | exact Hacc].
Qed.

Lemma healed_prefix_is_json_witness :
  no_opener "Here: " = true
  /\ ends_closable text_a1 = true
  /\ schema_conforms name_plain (Some schema_ab) = true
  /\ exists tail,
       heal (Some schema_ab) ["Here"; ": {" ++ quote; "a" ++ quote ++ ":1"]
       = (text_a1, Ok tail)
       /\ json_valid (text_a1 ++ tail) = true.
Proof.
  split; [reflexivity|]. split; [vm_compute; reflexivity|].
  split; [vm_compute; reflexivity|].
  refine (healed_prefix_is_json (Some schema_ab) "Here: " text_a1
            ["Here"; ": {" ++ quote; "a" ++ quote ++ ":1"]
            eq_refl _ eq_refl _ _ _ _).
  - vm_compute. lia.
  - exists ("," ++ quoted "b" ++ ":2}"). vm_compute. reflexivity.
  - vm_compute. reflexivity.
  - vm_compute. reflexivity.
  - vm_compute. reflexivity.
Defined.

(** ** Healing twice *)

(** C7, at the failing input: the stream stops after a backslash inside a
    string.  [finish] appends a quote, which the backslash escapes, so the
    healed text still has an open string and an open array: a fresh healer
    returns the same tail for it again, not the empty string. *)
Theorem healing_twice_after_backslash :
  heal None [text_backslash] = (text_backslash, Ok (quote ++ "]")%string)
  /\ heal None [(text_backslash ++ quote ++ "]")%string]
     = ((text_backslash ++ quote ++ "]")%string, Ok (quote ++ "]")%string).
Proof. split; vm_compute; reflexivity. Qed.

Lemma scan_top_closers (v : view) (c : ascii) :
  forallb closer_ok (snd v) = true ->
  forallb closer_ok (snd (scan_top v c)) = true.
Proof.
  destruct v as [[[inS esc] pending] fs]. unfold scan_top. cbn [snd].
  intros H.
  repeat match goal with
         | |- context [if ?b then _ else _] => destruct b eqn:?
         | |- context [match ?l with [] => _ | _ :: _ => _ end] =>
             is_var l; destruct l
         end;
    cbn [snd forallb] in *; rewrite ?closer_ok_frame;
    try (apply andb_true_iff in H as [Ht Hr]);
    rewrite ?Ht, ?Hr, ?H; try reflexivity;
    unfold closer_ok in *;
    repeat match goal with
           | E : isObject _ = _ |- _ => rewrite E in *
           end;
    rewrite ?Ht, ?Hr; reflexivity.
Qed.

Lemma scan_view_closers (text : string) (v : view) :
  forallb closer_ok (snd v) = true ->
  forallb closer_ok (snd (scan_view v text)) = true.
Proof.
  revert v. induction text as [|c text IH]; intros v H; simpl; [exact H|].
  apply IH, scan_top_closers, H.
Qed.

(** Outside a string the closers of the open frames, the innermost first,
    empty the stack. *)
Lemma scan_view_closing (fs : list StackFrame) :
  forallb closer_ok fs = true ->
  forall gs esc pending,
    map char gs = map char fs ->
    exists esc' pending',
      scan_view (false, esc, pending, fs)
        (concat_all (map (fun f => String (char f) "") gs))
      = (false, esc', pending', []).
Proof.
  induction fs as [|t r IH]; intros H gs esc pending E.
  - destruct gs; [simpl; eauto | discriminate].
  - destruct gs as [|g gs]; [discriminate|]. cbn [map] in E.
    injection E as Eg E.
    cbn [forallb] in H. apply andb_true_iff in H as [Ht Hr].
    cbn [map concat_all fold_right]. rewrite Eg.
    destruct t as [ch io ks ck]. rewrite closer_ok_frame in Ht.
    apply Ascii.eqb_eq in Ht. subst ch. cbn [char].
    destruct io; simpl; apply IH; assumption.
Qed.

Lemma pieces_without_schema (h : StreamHealer) (frames : list StackFrame)
    (d : nat) :
  schema h = None ->
  pieces_from h d frames = map (fun f => String (char f) "") frames.
Proof.
  intros Hs. revert d. induction frames as [|f frames IH]; intros d; simpl;
    [reflexivity|].
  rewrite IH. f_equal. unfold frame_piece, missing_of, governing_at.
  rewrite Hs. now destruct (isObject f).
Qed.

(** X15.  Healing twice, without schema.  When the text read since the
    first opener does not stop right after a backslash inside a string, the
    healed text heals to itself with an empty tail. *)
Lemma healing_twice_without_schema (preamble p : string) :
  no_opener preamble = true -> starts_with_opener p = true ->
  inString (analyzeState (begun None) p)
  && isEscaped (analyzeState (begun None) p) = false ->
  exists tail,
    heal None [preamble ++ p] = (p, Ok tail)
    /\ heal None [p ++ tail] = (p ++ tail, Ok "").
Proof.
  intros Hpre Hp Hesc.
  set (h := analyzeState (begun None) p) in *.
  destruct (analyzeState_fields p (begun None)) as (Hsch & _ & Hst).
  fold h in Hsch, Hst. cbn [begun schema hasStartedJson] in Hsch, Hst.
  destruct p as [|c rest]; [discriminate|]. cbn [starts_with_opener] in Hp.
  exists (null_tail h). split.
  - unfold heal. cbn [feed]. change (new_healer None) with (waiting None "").
    rewrite (process_waiting_begins None "" (preamble ++ String c rest)
               preamble c rest eq_refl Hpre Hp).
    fold h. cbn [String.concat]. f_equal.
    apply (finish_conforms renders renders_itself); [exact Hst | now rewrite Hsch].
  - unfold heal. cbn [feed]. change (new_healer None) with (waiting None "").
    rewrite (process_waiting_begins None "" (String c rest ++ null_tail h)
               "" c (rest ++ null_tail h) eq_refl eq_refl Hp).
    cbn [String.concat]. f_equal.
    change (String c (rest ++ null_tail h)) with (String c rest ++ null_tail h).
    rewrite analyzeState_append. fold h.
    set (h2 := analyzeState h (null_tail h)).
    assert (Hv : exists esc' pending', view_of h2 = (false, esc', pending', [])).
    { unfold h2. rewrite analyzeState_view. unfold null_tail.
      rewrite pieces_without_schema, <- map_rev, close_string_view
        by (destruct (close_string_fields h) as (-> & _); exact Hsch).
      assert (Hcl : forallb closer_ok (rev (stack h)) = true).
      { change (rev (stack h)) with (snd (view_of h)). unfold h.
        rewrite analyzeState_view. apply scan_view_closers. reflexivity. }
      unfold view_of at 1. destruct (inString h) eqn:Hin.
      - cbn [andb] in Hesc. rewrite Hesc.
        change (quote ++ ?x) with (String dquote x).
        cbn [scan_view]. unfold scan_top. cbn [Ascii.eqb].
        change (dquote =? "\")%char with false.
        change (dquote =? dquote)%char with true. cbv beta iota.
        destruct (rev (stack h)) as [|t r].
        + exists false, (pendingKeyBuffer h). reflexivity.
        + cbn [forallb] in Hcl. apply andb_true_iff in Hcl as [Ht Hr].
          destruct (isObject t && is_null (currentKey t));
            destruct (isObject t) eqn:Ho;
            (apply scan_view_closing;
             [ cbn [forallb]; rewrite ?closer_ok_frame, Hr;
               unfold closer_ok in *; rewrite ?Ho in *; rewrite Ht;
               reflexivity
             | reflexivity ]).
      - cbn [String.append]. apply scan_view_closing; [exact Hcl | reflexivity]. }
    destruct Hv as (esc' & pending' & Hv).
    unfold view_of in Hv. injection Hv as Hin _ _ Hstack.
    assert (Hst2 : hasStartedJson h2 = true).
    { unfold h2. destruct (analyzeState_fields (null_tail h) h) as (_ & _ & ->).
      exact Hst. }
    assert (Hempty : stack h2 = []).
    { destruct (stack h2) as [|f st] using rev_ind; [reflexivity|].
      rewrite rev_unit in Hstack. discriminate. }
    unfold finish, close_string. rewrite Hst2, Hin, Hempty. reflexivity.
Qed.

(** * Further properties *)

(** ** The preamble, in general *)

Lemma search_opener_some (text : string) (n : nat) :
  search_opener text = Some n ->
  exists pre c rest,
    text = pre ++ String c rest /\ no_opener pre = true
    /\ is_opener c = true /\ n = String.length pre.
Proof.
  revert n. induction text as [|a text IH]; intros n H; [discriminate|].
  cbn [search_opener] in H. destruct (is_opener a) eqn:Ha.
  - injection H as <-. exists "", a, text. repeat split; assumption || reflexivity.
  - destruct (search_opener text) as [m|]; [|discriminate].
    injection H as <-.
    destruct (IH m eq_refl) as (pre & c & rest & -> & Hp & Hc & ->).
    exists (String a pre), c, rest. cbn. rewrite Ha, Hp. repeat split; auto.
Qed.

Lemma process_waiting_flushes (s : option Json) (b chunk : string) :
  no_opener (b ++ chunk) = true ->
  MAX_PREAMBLE_BUFFER < String.length (b ++ chunk) ->
  process (waiting s b) chunk
  = (analyzeState (begun s) (b ++ chunk), b ++ chunk).
Proof.
  intros Hno Hlen. unfold process, waiting. simpl.
  apply search_opener_none in Hno. rewrite Hno.
  apply Nat.ltb_lt in Hlen. now rewrite Hlen.
Qed.

Lemma feed_begun (s : option Json) (text : string) (chunks : list string) :
  feed (analyzeState (begun s) text) chunks
  = (analyzeState (begun s) (text ++ concat_all chunks), chunks).
Proof.
  rewrite feed_started.
  - now rewrite concat_empty_sep, analyzeState_append.
  - now destruct (analyzeState_fields text (begun s)) as (_ & _ & ->).
Qed.

(** The three ways a session can go, for a healer that waits with [b] in
    its buffer: the JSON never begins and everything is kept in the
    buffer; an opener arrives and everything from the first opener on is
    forwarded and scanned; or the buffer grows past the limit before any
    opener and everything is forwarded and scanned. *)
Lemma feed_from_waiting (s : option Json) (chunks : list string) :
  forall b,
    no_opener b = true -> String.length b <= MAX_PREAMBLE_BUFFER ->
    let text := b ++ concat_all chunks in
    (no_opener text = true /\ String.length text <= MAX_PREAMBLE_BUFFER
     /\ exists outs, feed (waiting s b) chunks = (waiting s text, outs)
                     /\ concat_all outs = "")
    \/ (exists dropped kept outs,
          text = dropped ++ kept /\ no_opener dropped = true
          /\ starts_with_opener kept = true
          /\ feed (waiting s b) chunks = (analyzeState (begun s) kept, outs)
          /\ concat_all outs = kept)
    \/ (exists flushed more outs,
          text = flushed ++ more /\ no_opener flushed = true
          /\ MAX_PREAMBLE_BUFFER < String.length flushed
          /\ feed (waiting s b) chunks = (analyzeState (begun s) text, outs)
          /\ concat_all outs = text).
Proof.
  induction chunks as [|chunk chunks IH]; intros b Hb Hl; cbv zeta.
  - left. cbn [concat_all fold_right]. rewrite append_nil_r.
    repeat split; try assumption. exists []. split; reflexivity.
  - cbn [concat_all fold_right]. fold (concat_all chunks).
    rewrite <- append_assoc. cbn [feed].
    destruct (search_opener (b ++ chunk)) as [n|] eqn:Hs.
    + right. left.
      destruct (search_opener_some _ _ Hs) as (pre & c & rest & E & Hp & Hc & _).
      rewrite (process_waiting_begins s b chunk pre c rest E Hp Hc), feed_begun.
      exists pre, (String c rest ++ concat_all chunks), (String c rest :: chunks).
      rewrite E, append_assoc. repeat split; try assumption.
    + apply search_opener_none in Hs.
      destruct (Nat.ltb MAX_PREAMBLE_BUFFER (String.length (b ++ chunk))) eqn:Hlen.
      * right. right. apply Nat.ltb_lt in Hlen.
        rewrite (process_waiting_flushes s b chunk Hs Hlen), feed_begun.
        exists (b ++ chunk), (concat_all chunks), ((b ++ chunk) :: chunks).
        repeat split; try assumption.
      * apply Nat.ltb_ge in Hlen.
        rewrite (process_waiting_keeps s b chunk Hs Hlen).
        destruct (IH (b ++ chunk) Hs Hlen)
          as [(Hno & Hle & outs & -> & Ho)
             | [(dropped & kept & outs & E & Hd & Hk & -> & Ho)
               | (flushed & more & outs & E & Hf & Hm & -> & Ho)]].
        -- left. repeat split; try assumption. exists ("" :: outs). now split.
        -- right. left. exists dropped, kept, ("" :: outs).
           repeat split; assumption.
        -- right. right. exists flushed, more, ("" :: outs).
           repeat split; assumption.
Qed.

Lemma finish_waiting (s : option Json) (b : string) :
  finish (waiting s b) = Ok b.
Proof. destruct b; reflexivity. Qed.

Lemma length_zero_empty (x : string) : String.length x = 0 -> x = "".
Proof. destruct x; [reflexivity | discriminate]. Qed.

(** ** What [process] forwards *)

(** X1.  Whatever the chunks and the schema, the text that [process] forwards
    is the end of the input, and what precedes it has no opener: nothing
    is added, reordered or cut out of the middle.  A part is withheld
    only in front of an opener or when nothing at all is forwarded, and
    in the latter case [finish] returns the whole input. *)
Theorem forwarded_text_ends_the_input (s : option Json) (chunks : list string) :
  exists dropped,
    concat_all chunks = dropped ++ fst (heal s chunks)
    /\ no_opener dropped = true
    /\ (dropped = "" \/ starts_with_opener (fst (heal s chunks)) = true
        \/ fst (heal s chunks) = "")
    /\ (fst (heal s chunks) = "" -> snd (heal s chunks) = Ok (concat_all chunks)).
Proof.
  unfold heal. change (new_healer s) with (waiting s "").
  destruct (feed_from_waiting s chunks "" eq_refl) as
    [(Hno & Hle & outs & -> & Ho)
    | [(dropped & kept & outs & E & Hd & Hk & -> & Ho)
      | (flushed & more & outs & E & Hf & Hm & -> & Ho)]];
    [unfold MAX_PREAMBLE_BUFFER; simpl; lia | | |];
    cbn [String.append] in *; cbn [fst snd]; rewrite concat_empty_sep, Ho.
  - exists (concat_all chunks). rewrite append_nil_r.
    repeat split; auto. intros _. apply finish_waiting.
  - exists dropped. repeat split; auto.
    intros ->. discriminate.
  - exists "". repeat split; auto.
    intros E0. rewrite E0 in E.
    apply (f_equal String.length) in E. rewrite length_append in E.
    simpl in E. lia.
Qed.

Lemma forwarded_text_ends_the_input_witness :
  fst (heal None ["no json "; "here"]) = ""
  /\ snd (heal None ["no json "; "here"]) = Ok "no json here".
Proof.
  split; [reflexivity|].
  destruct (forwarded_text_ends_the_input None ["no json "; "here"])
    as (dropped & _ & _ & _ & H).
  apply H. reflexivity.
Defined.

Lemma rev_empty {A : Type} (l : list A) : rev l = [] -> l = [].
Proof.
  intros H. apply (f_equal (@rev A)) in H. now rewrite rev_involutive in H.
Qed.

Lemma finish_empty_stack (h : StreamHealer) :
  hasStartedJson h = true -> stack h = [] ->
  finish h = Ok (if inString h then quote else "").
Proof.
  intros Hst Hs. unfold finish, close_string. rewrite Hst, Hs.
  cbn [negb andb top].
  destruct (inString h); rewrite Hs; reflexivity.
Qed.

Lemma scan_view_no_opener (text : string) :
  no_opener text = true ->
  forall inS esc pending,
    snd (scan_view (inS, esc, pending, []) text) = [].
Proof.
  induction text as [|c text IH]; intros H inS esc pending; [reflexivity|].
  cbn [no_opener] in H. apply andb_true_iff in H as [Hc H].
  apply negb_true_iff in Hc. unfold is_opener in Hc.
  apply orb_false_iff in Hc as [Hc1 Hc2].
  cbn [scan_view]. unfold scan_top. rewrite Hc1, Hc2.
  repeat match goal with
         | |- context [if ?b then _ else _] => destruct b
         end; apply IH, H.
Qed.

(** X2.  A text without opener.  Up to 500 characters [process] forwards
    nothing and [finish] returns the text.  Beyond, [process] forwards
    the whole text, and [finish] returns nothing, or a lone quote when
    the scanner takes the text to end inside a string. *)
Theorem text_without_opener (s : option Json) (chunks : list string) :
  no_opener (concat_all chunks) = true ->
  (String.length (concat_all chunks) <= MAX_PREAMBLE_BUFFER ->
   heal s chunks = ("", Ok (concat_all chunks)))
  /\ (MAX_PREAMBLE_BUFFER < String.length (concat_all chunks) ->
      fst (heal s chunks) = concat_all chunks
      /\ (snd (heal s chunks) = Ok "" \/ snd (heal s chunks) = Ok quote)).
Proof.
  intros Hno. unfold heal. change (new_healer s) with (waiting s "").
  destruct (feed_from_waiting s chunks "" eq_refl) as
    [(_ & Hle & outs & -> & Ho)
    | [(dropped & kept & outs & E & Hd & Hk & -> & Ho)
      | (flushed & more & outs & E & Hf & Hm & -> & Ho)]];
    [unfold MAX_PREAMBLE_BUFFER; simpl; lia | | |];
    cbn [String.append] in *; cbn [fst snd]; rewrite concat_empty_sep, Ho.
  - split; [intros _; now rewrite finish_waiting | lia].
  - rewrite E, no_opener_append, (starts_with_opener_no_opener kept Hk) in Hno.
    now rewrite andb_false_r in Hno.
  - split.
    + rewrite E, length_append. lia.
    + intros _. split; [reflexivity|].
      set (h := analyzeState (begun s) (concat_all chunks)).
      assert (Hst : hasStartedJson h = true).
      { unfold h.
        now destruct (analyzeState_fields (concat_all chunks) (begun s))
          as (_ & _ & ->). }
      assert (Hs : stack h = []).
      { apply rev_empty. change (rev (stack h)) with (snd (view_of h)).
        unfold h. rewrite analyzeState_view.
        apply scan_view_no_opener, Hno. }
      rewrite (finish_empty_stack h Hst Hs).
      destruct (inString h); auto.
Qed.

Lemma text_without_opener_witness :
  no_opener "Sorry, I cannot: no." = true
  /\ heal None ["Sorry, I "; "cannot: no."] = ("", Ok "Sorry, I cannot: no.").
Proof.
  split; [reflexivity|].
  apply (proj1 (text_without_opener None ["Sorry, I "; "cannot: no."] eq_refl)).
  vm_compute. lia.
Defined.

(** ** Complete documents *)

Lemma kinds_match_nil (fs : list StackFrame) :
  kinds_match fs [] = true -> fs = [].
Proof. destruct fs; [reflexivity | discriminate]. Qed.

Lemma accepting_cases (st : state) :
  accepting st = true ->
  exists pos, st = ([], pos) /\ in_string_pos pos = false.
Proof.
  destruct st as [[|k ctxs] pos]; destruct pos; try discriminate;
    intros _; eexists; split; reflexivity.
Qed.

(** The scanner has read a whole JSON text: no frame is left and no
    string is open. *)
Lemma scanned_document (s : option Json) (p : string) :
  json_valid p = true ->
  stack (analyzeState (begun s) p) = []
  /\ inString (analyzeState (begun s) p) = false.
Proof.
  unfold json_valid. intros H.
  destruct (scan initial p) as [st|] eqn:Hsc; [|discriminate].
  destruct (accepting_cases st H) as (pos & -> & Hpos).
  assert (Hag : agree (view_of (analyzeState (begun s) p)) ([], pos) = true).
  { rewrite analyzeState_view. eapply agree_scan; [|exact Hsc]. reflexivity. }
  unfold view_of, agree in Hag.
  repeat (apply andb_true_iff in Hag as [Hag ?]).
  apply kinds_match_nil, rev_empty in Hag. split; [exact Hag|].
  rewrite Hpos in *.
  now destruct (inString (analyzeState (begun s) p)).
Qed.

Lemma finish_document (s : option Json) (p : string) :
  json_valid p = true -> finish (analyzeState (begun s) p) = Ok "".
Proof.
  intros Hv. destruct (scanned_document s p Hv) as [Hs Hin].
  rewrite finish_empty_stack, Hin; [reflexivity | | exact Hs].
  now destruct (analyzeState_fields p (begun s)) as (_ & _ & ->).
Qed.

Lemma heal_complete_document (s : option Json) (preamble p : string)
    (chunks : list string) :
  no_opener preamble = true ->
  String.length preamble <= MAX_PREAMBLE_BUFFER ->
  starts_with_opener p = true ->
  json_valid p = true ->
  concat_all chunks = preamble ++ p ->
  heal s chunks = (p, Ok "").
Proof.
  intros Hpre Hlen Hp Hv E.
  destruct (feed_waiting s preamble p Hpre Hlen Hp chunks "" eq_refl E)
    as (outs & Hf & Ho).
  change (waiting s "") with (new_healer s) in Hf.
  unfold heal. rewrite Hf, concat_empty_sep, Ho. f_equal.
  apply finish_document, Hv.
Qed.

(** X3.  A complete JSON object or array, after a preamble without opener of
    at most 500 characters, in any chunking and with any schema: what
    [process] forwards is the document, and [finish] adds nothing. *)
Theorem complete_document_is_untouched (s : option Json) (preamble p : string)
    (chunks : list string) :
  no_opener preamble = true ->
  String.length preamble <= MAX_PREAMBLE_BUFFER ->
  starts_with_opener p = true ->
  json_valid p = true ->
  concat_all chunks = preamble ++ p ->
  heal s chunks = (p, Ok "").
Proof. exact (heal_complete_document s preamble p chunks). Qed.

Lemma complete_document_is_untouched_witness :
  json_valid ("{" ++ quoted "a" ++ ":[1,{}]}") = true
  /\ heal (Some schema_ab) ["Sure: {" ++ quoted "a"; ":[1,{"; "}]}"]
     = ("{" ++ quoted "a" ++ ":[1,{}]}", Ok "").
Proof.
  split; [vm_compute; reflexivity|].
  apply (complete_document_is_untouched (Some schema_ab) "Sure: ").
  - reflexivity.
  - vm_compute. lia.
  - reflexivity.
  - vm_compute. reflexivity.
  - vm_compute. reflexivity.
Defined.

(** ** Chunk boundaries *)

Lemma heal_short_text (s : option Json) (chunks : list string) :
  no_opener (concat_all chunks) = true ->
  String.length (concat_all chunks) <= MAX_PREAMBLE_BUFFER ->
  heal s chunks = ("", Ok (concat_all chunks)).
Proof.
  intros Hno Hlen. unfold heal. change (new_healer s) with (waiting s "").
  destruct (feed_from_waiting s chunks "" eq_refl) as
    [(_ & Hle & outs & -> & Ho)
    | [(dropped & kept & outs & E & Hd & Hk & -> & Ho)
      | (flushed & more & outs & E & Hf & Hm & -> & Ho)]];
    [unfold MAX_PREAMBLE_BUFFER; simpl; lia | | |];
    cbn [String.append] in *.
  - now rewrite concat_empty_sep, Ho, finish_waiting.
  - rewrite E, no_opener_append, (starts_with_opener_no_opener kept Hk) in Hno.
    now rewrite andb_false_r in Hno.
  - rewrite E, length_append in Hlen. lia.
Qed.

(** X4.  The result of a session does not depend on where the input is cut
    into chunks, as long as the text before the first opener (the whole
    text when there is none) has at most 500 characters. *)
Theorem chunking_does_not_matter (s : option Json) (preamble p : string)
    (chunks1 chunks2 : list string) :
  no_opener preamble = true ->
  String.length preamble <= MAX_PREAMBLE_BUFFER ->
  p = "" \/ starts_with_opener p = true ->
  concat_all chunks1 = preamble ++ p ->
  concat_all chunks2 = preamble ++ p ->
  heal s chunks1 = heal s chunks2.
Proof.
  intros Hpre Hlen [-> | Hp] E1 E2.
  - rewrite append_nil_r in E1, E2.
    rewrite (heal_short_text s chunks1), (heal_short_text s chunks2);
      rewrite ?E1, ?E2; auto.
  - destruct (feed_waiting s preamble p Hpre Hlen Hp chunks1 "" eq_refl E1)
      as (outs1 & Hf1 & Ho1).
    destruct (feed_waiting s preamble p Hpre Hlen Hp chunks2 "" eq_refl E2)
      as (outs2 & Hf2 & Ho2).
    change (waiting s "") with (new_healer s) in Hf1, Hf2.
    unfold heal. now rewrite Hf1, Hf2, !concat_empty_sep, Ho1, Ho2.
Qed.

Lemma chunking_does_not_matter_witness :
  heal (Some schema_ab) ["Here"; ": {" ++ quote; "a" ++ quote ++ ":1"]
  = heal (Some schema_ab) ["Here: {" ++ quoted "a" ++ ":1"].
Proof.
  apply (chunking_does_not_matter (Some schema_ab) "Here: " text_a1).
  - reflexivity.
  - vm_compute. lia.
  - right. reflexivity.
  - vm_compute. reflexivity.
  - vm_compute. reflexivity.
Defined.

(** X5.  Beyond 500 characters the preamble is handled by chunk: a preamble
    without opener of more than 500 characters is dropped when the first
    opener arrives in the same chunk, and forwarded when the preamble
    comes in a chunk of its own. *)
Theorem long_preamble_by_chunk (s : option Json) (preamble p : string) :
  no_opener preamble = true ->
  MAX_PREAMBLE_BUFFER < String.length preamble ->
  starts_with_opener p = true ->
  fst (heal s [preamble ++ p]) = p
  /\ fst (heal s [preamble; p]) = preamble ++ p.
Proof.
  intros Hpre Hlen Hp. destruct p as [|c rest]; [discriminate|].
  cbn [starts_with_opener] in Hp.
  unfold heal. cbn [feed]. change (new_healer s) with (waiting s "").
  rewrite (process_waiting_begins s "" (preamble ++ String c rest)
             preamble c rest eq_refl Hpre Hp).
  rewrite (process_waiting_flushes s "" preamble Hpre Hlen).
  cbn [String.append]. rewrite process_started.
  - split; cbn [fst String.concat]; reflexivity.
  - now destruct (analyzeState_fields preamble (begun s)) as (_ & _ & ->).
Qed.

Lemma long_preamble_by_chunk_witness :
  fst (heal None [repeat_char "a" 501 ++ "{}"]) = "{}"
  /\ fst (heal None [repeat_char "a" 501; "{}"]) = repeat_char "a" 501 ++ "{}".
Proof.
  apply (long_preamble_by_chunk None (repeat_char "a" 501) "{}").
  - vm_compute. reflexivity.
  - vm_compute. lia.
  - reflexivity.
Defined.

(** ** What the scanner keeps true *)

Lemma set_has_add (keys : list string) (k : string) :
  set_has (set_add keys k) k = true.
Proof.
  unfold set_add. destruct (set_has keys k) eqn:H; [exact H|].
  unfold set_has. rewrite existsb_app. simpl.
  now rewrite String.eqb_refl, orb_true_r.
Qed.

Lemma scan_top_ok (v : view) (c : ascii) :
  view_ok v = true -> view_ok (scan_top v c) = true.
Proof.
  destruct v as [[[inS esc] pending] fs]. unfold view_ok, scan_top.
  intros H. apply andb_true_iff in H as [He Hf].
  destruct inS, esc; try discriminate; cbn [implb andb];
    repeat match goal with
           | |- context [if ?b then _ else _] => destruct b eqn:?
           | |- context [match ?l with [] => _ | _ :: _ => _ end] =>
               is_var l; destruct l
           end;
    cbn [implb andb forallb] in *; try exact Hf; try reflexivity;
    try (apply andb_true_iff in Hf as [Ht Hr]; rewrite ?Hr, ?andb_true_r);
    try assumption;
    unfold frame_ok, closer_ok, array_clean, key_recorded, no_keys in *;
    cbn [char isObject keysSeen currentKey] in *;
    repeat match goal with
           | E : isObject _ = _ |- _ => rewrite E in *
           | E : isObject _ && _ = true |- _ =>
               apply andb_true_iff in E as [? ?]
           end;
    cbn [orb andb] in *; rewrite ?set_has_add, ?andb_true_r in *;
    try assumption; try reflexivity;
    try (apply andb_true_iff in Ht as [Ht _]; exact Ht).
Qed.

Lemma scan_view_ok (text : string) (v : view) :
  view_ok v = true -> view_ok (scan_view v text) = true.
Proof.
  revert v. induction text as [|c text IH]; intros v H; [exact H|].
  apply IH, scan_top_ok, H.
Qed.

Lemma forallb_rev {A : Type} (ok : A -> bool) (l : list A) :
  forallb ok (rev l) = forallb ok l.
Proof.
  induction l as [|x l IH]; [reflexivity|].
  cbn [rev forallb]. rewrite forallb_app, IH. cbn [forallb].
  now rewrite andb_true_r, andb_comm.
Qed.

Lemma scanned_ok (s : option Json) (text : string) :
  (isEscaped (analyzeState (begun s) text) = true ->
   inString (analyzeState (begun s) text) = true)
  /\ forallb frame_ok (stack (analyzeState (begun s) text)) = true.
Proof.
  assert (H : view_ok (view_of (analyzeState (begun s) text)) = true).
  { rewrite analyzeState_view. apply scan_view_ok. reflexivity. }
  unfold view_of, view_ok in H. apply andb_true_iff in H as [He Hf].
  rewrite forallb_rev in Hf. split; [|exact Hf].
  intros E. rewrite E in He. exact He.
Qed.

Lemma fed_healer (s : option Json) (chunks : list string) :
  let h := fst (feed (new_healer s) chunks) in
  schema h = s
  /\ (hasStartedJson h = false ->
      h = waiting s (concat_all chunks)
      /\ no_opener (concat_all chunks) = true
      /\ String.length (concat_all chunks) <= MAX_PREAMBLE_BUFFER)
  /\ (hasStartedJson h = true -> buffer h = "")
  /\ (isEscaped h = true -> inString h = true)
  /\ forallb frame_ok (stack h) = true.
Proof.
  cbv zeta. change (new_healer s) with (waiting s "").
  assert (Hb : forall text,
             let h := analyzeState (begun s) text in
             schema h = s /\ buffer h = "" /\ hasStartedJson h = true).
  { intros text. cbv zeta.
    destruct (analyzeState_fields text (begun s)) as (E1 & E2 & E3).
    rewrite E1, E2, E3. repeat split. }
  destruct (feed_from_waiting s chunks "" eq_refl) as
    [(Hno & Hle & outs & -> & Ho)
    | [(dropped & kept & outs & E & Hd & Hk & -> & Ho)
      | (flushed & more & outs & E & Hf & Hm & -> & Ho)]];
    [unfold MAX_PREAMBLE_BUFFER; simpl; lia | | |];
    cbn [String.append fst] in *.
  - split; [reflexivity|]. split; [intros _; now repeat split|].
    split; [discriminate|]. split; [discriminate | reflexivity].
  - destruct (Hb kept) as (H1 & H2 & H3).
    destruct (scanned_ok s kept) as [H4 H5].
    split; [exact H1|]. split; [rewrite H3; discriminate|].
    split; [intros _; exact H2|]. split; assumption.
  - destruct (Hb (concat_all chunks)) as (H1 & H2 & H3).
    destruct (scanned_ok s (concat_all chunks)) as [H4 H5].
    split; [exact H1|]. split; [rewrite H3; discriminate|].
    split; [intros _; exact H2|]. split; assumption.
Qed.


(** X6.  The states a fresh healer can reach, whatever the chunks.  Before the
    JSON has started the scanner has not run and the buffer holds the
    whole input, which has no opener and at most 500 characters; once it
    has started the buffer is empty.  At any time an escape is pending
    only inside a string, and every frame has the closer of its kind,
    records keys only if it is an object, and has its current key among
    the keys it has seen. *)
Theorem reachable_states (s : option Json) (chunks : list string) :
  let h := fst (feed (new_healer s) chunks) in
  schema h = s
  /\ (hasStartedJson h = false ->
      h = waiting s (concat_all chunks)
      /\ no_opener (concat_all chunks) = true
      /\ String.length (concat_all chunks) <= MAX_PREAMBLE_BUFFER)
  /\ (hasStartedJson h = true -> buffer h = "")
  /\ (isEscaped h = true -> inString h = true)
  /\ forallb frame_ok (stack h) = true.
Proof. exact (fed_healer s chunks). Qed.

Lemma reachable_states_witness :
  hasStartedJson (fst (feed (new_healer None) ["so"; " far"])) = false
  /\ fst (feed (new_healer None) ["so"; " far"]) = waiting None "so far".
Proof.
  split; [reflexivity|].
  destruct (reachable_states None ["so"; " far"]) as (_ & H & _).
  exact (proj1 (H eq_refl)).
Defined.

(** ** The schema is read by [finish] only *)

Lemma analyzeChar_with_schema (s : option Json) (h : StreamHealer) (c : ascii) :
  analyzeChar (with_schema s h) c = with_schema s (analyzeChar h c).
Proof.
  destruct h as [s0 b st stk inS esc pending].
  unfold analyzeChar, with_schema.
  cbn [schema buffer hasStartedJson stack inString isEscaped pendingKeyBuffer].
  repeat match goal with
         | |- context [if ?b then _ else _] => destruct b
         | |- context [match top ?st with _ => _ end] => destruct (top st)
         end; reflexivity.
Qed.

Lemma analyzeState_with_schema (s : option Json) (text : string)
    (h : StreamHealer) :
  analyzeState (with_schema s h) text = with_schema s (analyzeState h text).
Proof.
  revert h. induction text as [|c text IH]; intros h; [reflexivity|].
  cbn [analyzeState]. now rewrite analyzeChar_with_schema, IH.
Qed.

Lemma process_with_schema (s : option Json) (h : StreamHealer) (chunk : string) :
  process (with_schema s h) chunk
  = (with_schema s (fst (process h chunk)), snd (process h chunk)).
Proof.
  unfold process.
  change (hasStartedJson (with_schema s h)) with (hasStartedJson h).
  destruct (hasStartedJson h); cbn [negb].
  - cbn [fst snd]. now rewrite analyzeState_with_schema.
  - change (buffer (set_buffer (with_schema s h) (buffer (with_schema s h) ++ chunk)))
      with (buffer h ++ chunk).
    change (buffer (set_buffer h (buffer h ++ chunk))) with (buffer h ++ chunk).
    destruct (search_opener (buffer h ++ chunk)) as [n|].
    + cbn [fst snd]. rewrite <- analyzeState_with_schema. reflexivity.
    + destruct (MAX_PREAMBLE_BUFFER <? String.length (buffer h ++ chunk))%nat.
      * cbn [fst snd]. rewrite <- analyzeState_with_schema. reflexivity.
      * reflexivity.
Qed.

(** X7.  The schema has no part in [process]: with another schema the same
    chunks give the same outputs and leave the same scanner state, so
    two healers that differ in their schema only forward the same text. *)
Theorem process_ignores_the_schema (s : option Json) (chunks : list string) :
  (forall h, feed (with_schema s h) chunks
             = (with_schema s (fst (feed h chunks)), snd (feed h chunks)))
  /\ forall s', fst (heal s chunks) = fst (heal s' chunks).
Proof.
  assert (H : forall h, feed (with_schema s h) chunks
                        = (with_schema s (fst (feed h chunks)), snd (feed h chunks))).
  { induction chunks as [|chunk chunks IH]; intros h; [reflexivity|].
    cbn [feed]. rewrite process_with_schema.
    destruct (process h chunk) as [h1 out]. cbn [fst snd].
    rewrite IH. destruct (feed h1 chunks) as [h2 outs]. reflexivity. }
  split; [exact H|].
  intros s'. unfold heal.
  change (new_healer s) with (with_schema s (new_healer s')).
  rewrite H. destruct (feed (new_healer s') chunks) as [h outs]. reflexivity.
Qed.

(** ** [finish] without a schema *)

Lemma closers_app (a b : list StackFrame) :
  closers (a ++ b) = closers a ++ closers b.
Proof. induction a as [|f a IH]; [reflexivity|]. simpl. now rewrite IH. Qed.

Lemma closers_chars (a b : list StackFrame) :
  map char a = map char b -> closers a = closers b.
Proof.
  revert b. induction a as [|f a IH]; intros [|g b] E; try discriminate;
    [reflexivity|].
  injection E as E1 E2. simpl. now rewrite E1, (IH b E2).
Qed.

Lemma finish_loop_no_schema (h : StreamHealer) :
  truthy_opt (schema h) = false ->
  forall n closure,
    n <= List.length (stack h) ->
    finish_loop h n closure
    = Ok (closure ++ closers (rev (firstn n (stack h)))).
Proof.
  intros Hs. induction n as [|i IH]; intros closure Hn.
  - simpl. now rewrite append_nil_r.
  - cbn [finish_loop].
    destruct (nth_error (stack h) i) as [frame|] eqn:Hi.
    + unfold frame_closure. rewrite Hs, andb_false_r. cbn [bind].
      rewrite IH by lia.
      rewrite (firstn_snoc_nth _ _ _ Hi), rev_unit. cbn [closers].
      now rewrite append_assoc.
    + apply nth_error_None in Hi. lia.
Qed.

(** X8.  Without a schema, or with a schema that is a falsy value, [finish] on
    a started healer returns the quote that closes the open string, if
    any, and then the closer of every open frame, the innermost first;
    nothing else. *)
Theorem finish_without_schema (h : StreamHealer) :
  hasStartedJson h = true -> truthy_opt (schema h) = false ->
  finish h = Ok ((if inString h then quote else "") ++ closers (rev (stack h))).
Proof.
  intros Hst Hs. rewrite (finish_started h Hst).
  destruct (close_string_fields h) as (Hsch & _ & _).
  rewrite finish_loop_no_schema by (rewrite ?Hsch; auto).
  rewrite firstn_all. do 2 f_equal.
  apply closers_chars. rewrite close_string_view.
  destruct (inString h); [|reflexivity].
  destruct (rev (stack h)) as [|t r]; [reflexivity|].
  now destruct (isObject t).
Qed.

Lemma finish_without_schema_witness :
  finish (fst (feed (new_healer None) ["{" ++ quoted "a" ++ ":[" ++ quote ++ "b"]))
  = Ok (quote ++ "]}").
Proof.
  apply (finish_without_schema
           (fst (feed (new_healer None) ["{" ++ quoted "a" ++ ":[" ++ quote ++ "b"])));
    reflexivity.
Defined.

(** ** The keys that are injected *)

(** X10.  The keys that [getMissingRequiredKeys] returns for a frame of the
    stack: none of them is a key the frame has seen, and when there are
    any they are, in order, the unseen elements of the array [required]
    of the sub-schema that governs the frame, which is typed [object]. *)
Theorem missing_keys_are_unseen (h : StreamHealer) (d : nat)
    (frame : StackFrame) (ks : list Json) :
  nth_error (stack h) d = Some frame ->
  getMissingRequiredKeys h d = Ok ks ->
  (forall k, In (JStr k) ks -> set_has (keysSeen frame) k = false)
  /\ (ks = [] \/
      exists sub names,
        governing_at h d = Some sub
        /\ get sub "type" = Some (JStr "object")
        /\ get sub "required" = Some (JArr names)
        /\ ks = filter (not_seen frame) names).
Proof.
  intros Hd H. rewrite (getMissingRequiredKeys_governing h d frame Hd) in H.
  destruct (governing_at h d) as [sub|] eqn:Hg.
  - apply missing_at_returns in H. unfold required_missing in H.
    destruct (get sub "type") as [[| | |t| |]|] eqn:Ht;
      try (subst ks; split; [intros k [] | now left]).
    destruct (get sub "required") as [[| | | |names|]|] eqn:Hr;
      try (subst ks; split; [intros k [] | now left]).
    destruct (t =? "object") eqn:Et;
      [|subst ks; split; [intros k [] | now left]].
    apply String.eqb_eq in Et. subst t ks. split.
    + intros k Hk. apply filter_In in Hk as [_ Hk]. cbn [not_seen] in Hk.
      now apply negb_true_iff in Hk.
    + right. exists sub, names. auto.
  - injection H as <-. split; [intros k [] | now left].
Qed.

Lemma missing_keys_are_unseen_witness :
  getMissingRequiredKeys (fst (feed (new_healer (Some schema_ab)) [text_a1])) 0
  = Ok [JStr "b"]
  /\ set_has ["a"] "b" = false.
Proof.
  split; [vm_compute; reflexivity|].
  apply (proj1 (missing_keys_are_unseen
                  (fst (feed (new_healer (Some schema_ab)) [text_a1])) 0
                  (mkFrame "}" true ["a"] (Some "a")) [JStr "b"]
                  ltac:(vm_compute; reflexivity) ltac:(vm_compute; reflexivity))
               "b").
  left. reflexivity.
Defined.

(** ** The keys that are recorded *)

Lemma scan_key_chars (name : string) (t : StackFrame) (r : list StackFrame) :
  all_chars key_char name = true ->
  isObject t = true -> currentKey t = None ->
  forall pending,
    scan_view (true, false, pending, t :: r) name
    = (true, false, pending ++ name, t :: r).
Proof.
  intros Hn Ho Hk. induction name as [|c name IH]; intros pending.
  - now rewrite append_nil_r.
  - cbn [all_chars] in Hn. apply andb_true_iff in Hn as [Hc Hn].
    unfold key_char in Hc. apply andb_true_iff in Hc as [Hq Hb].
    apply negb_true_iff in Hq, Hb.
    cbn [scan_view]. unfold scan_top. rewrite Hq, Hb, Ho, Hk. cbn [is_null andb].
    rewrite (IH Hn), append_assoc. reflexivity.
Qed.

Lemma scan_value_chars (name : string) (t : StackFrame) (r : list StackFrame) :
  all_chars key_char name = true ->
  isObject t && is_null (currentKey t) = false ->
  forall pending,
    scan_view (true, false, pending, t :: r) name
    = (true, false, pending, t :: r).
Proof.
  intros Hn Ht. induction name as [|c name IH]; intros pending; [reflexivity|].
  cbn [all_chars] in Hn. apply andb_true_iff in Hn as [Hc Hn].
  unfold key_char in Hc. apply andb_true_iff in Hc as [Hq Hb].
  apply negb_true_iff in Hq, Hb.
  cbn [scan_view]. unfold scan_top. rewrite Hq, Hb, Ht. apply (IH Hn).
Qed.

Lemma stack_of_view (h : StreamHealer) (inS esc : bool) (pending : string)
    (fs : list StackFrame) :
  view_of h = (inS, esc, pending, fs) ->
  inString h = inS /\ isEscaped h = esc /\ pendingKeyBuffer h = pending
  /\ stack h = rev fs.
Proof.
  unfold view_of. intros [= <- <- <- <-]. now rewrite rev_involutive.
Qed.

Lemma scan_view_append (a b : string) (v : view) :
  scan_view v (a ++ b) = scan_view (scan_view v a) b.
Proof.
  revert v. induction a as [|c a IH]; intros v; [reflexivity|]. apply IH.
Qed.

Lemma scan_top_opens (pending : string) (fs : list StackFrame) :
  scan_top (false, false, pending, fs) dquote = (true, false, "", fs).
Proof. reflexivity. Qed.

Lemma scan_top_closes (pending : string) (t : StackFrame) (r : list StackFrame) :
  scan_top (true, false, pending, t :: r) dquote
  = if isObject t && is_null (currentKey t)
    then (false, false, pending,
          mkFrame (char t) (isObject t) (set_add (keysSeen t) pending)
                  (Some pending) :: r)
    else (false, false, pending, t :: r).
Proof. reflexivity. Qed.

Lemma scan_top_escapes (pending : string) (fs : list StackFrame) (c : ascii) :
  scan_view (true, false, pending, fs) (String "\" (String c ""))
  = (true, false, pending, fs).
Proof. reflexivity. Qed.

(** X11.  Reading a string in an object, from outside a string.  When the
    innermost frame is an object that waits for a key, the string is
    recorded: its text joins the keys the frame has seen and becomes its
    current key.  When the frame has its current key, the string is a
    value and the stack stays as it is.  Either way the string is closed
    at the end. *)
Theorem keys_are_recorded (h : StreamHealer) (name : string)
    (below : list StackFrame) (t : StackFrame) :
  inString h = false -> isEscaped h = false ->
  stack h = (below ++ [t])%list -> isObject t = true ->
  all_chars key_char name = true ->
  let h' := analyzeState h (quoted name) in
  inString h' = false
  /\ (currentKey t = None ->
      stack h' = (below ++ [mkFrame (char t) true (set_add (keysSeen t) name)
                              (Some name)])%list)
  /\ (currentKey t <> None -> stack h' = stack h).
Proof.
  intros Hin Hesc Hst Ho Hn. cbv zeta.
  assert (Hv : view_of h = (false, false, pendingKeyBuffer h, t :: rev below)).
  { unfold view_of. now rewrite Hin, Hesc, Hst, rev_unit. }
  change (quoted name) with (String dquote (name ++ String dquote "")).
  pose proof (analyzeState_view (String dquote (name ++ String dquote "")) h)
    as Hs.
  rewrite Hv in Hs. cbn [scan_view] in Hs. rewrite scan_top_opens, scan_view_append in Hs.
  destruct (currentKey t) as [k|] eqn:Hk.
  - rewrite (scan_value_chars name t (rev below) Hn) in Hs
      by (now rewrite Hk, andb_false_r).
    cbn [scan_view] in Hs. rewrite scan_top_closes, Hk, andb_false_r in Hs.
    apply stack_of_view in Hs as (H1 & _ & _ & H4).
    split; [exact H1|]. split; [discriminate|]. intros _.
    rewrite H4, Hst. cbn [rev]. now rewrite rev_involutive.
  - rewrite (scan_key_chars name t (rev below) Hn Ho Hk) in Hs.
    cbn [scan_view String.append] in Hs.
    rewrite scan_top_closes, Hk, Ho in Hs. cbn [andb is_null] in Hs.
    apply stack_of_view in Hs as (H1 & _ & _ & H4).
    split; [exact H1|]. split; [|congruence]. intros _.
    rewrite H4. cbn [rev]. now rewrite rev_involutive.
Qed.

Lemma keys_are_recorded_witness :
  stack (analyzeState (fst (process (new_healer None) "{")) (quoted "a"))
  = [mkFrame "}" true ["a"] (Some "a")].
Proof.
  apply (proj1 (proj2 (keys_are_recorded (fst (process (new_healer None) "{"))
                         "a" [] (mkFrame "}" true [] None)
                         eq_refl eq_refl eq_refl eq_refl eq_refl))).
  reflexivity.
Defined.

(** X12.  An escape sequence in a key is left out: when the innermost frame is
    an object that waits for a key, the key that is recorded for a string
    with a backslash is the text of the string without the backslash and
    without the character after it. *)
Theorem escapes_are_left_out_of_keys (h : StreamHealer) (a b : string)
    (c : ascii) (below : list StackFrame) (t : StackFrame) :
  inString h = false -> isEscaped h = false ->
  stack h = (below ++ [t])%list -> isObject t = true -> currentKey t = None ->
  all_chars key_char a = true -> all_chars key_char b = true ->
  stack (analyzeState h (quote ++ a ++ String "\" (String c b) ++ quote))
  = (below ++ [mkFrame (char t) true (set_add (keysSeen t) (a ++ b)%string)
                 (Some (a ++ b)%string)])%list.
Proof.
  intros Hin Hesc Hst Ho Hk Ha Hb.
  assert (Hv : view_of h = (false, false, pendingKeyBuffer h, t :: rev below)).
  { unfold view_of. now rewrite Hin, Hesc, Hst, rev_unit. }
  change (quote ++ a ++ String "\" (String c b) ++ quote)
    with (String dquote
            (a ++ String "\" (String c "") ++ b ++ String dquote "")).
  pose proof (analyzeState_view
                (String dquote
                   (a ++ String "\" (String c "") ++ b ++ String dquote "")) h)
    as Hs.
  rewrite Hv in Hs. cbn [scan_view] in Hs.
  rewrite scan_top_opens, scan_view_append in Hs.
  rewrite (scan_key_chars a t (rev below) Ha Ho Hk) in Hs.
  rewrite scan_view_append, scan_top_escapes, scan_view_append in Hs.
  rewrite (scan_key_chars b t (rev below) Hb Ho Hk) in Hs.
  cbn [scan_view String.append] in Hs.
  rewrite scan_top_closes, Hk, Ho in Hs. cbn [andb is_null] in Hs.
  apply stack_of_view in Hs as (_ & _ & _ & H4).
  etransitivity; [exact H4|]. cbn [rev]. now rewrite rev_involutive.
Qed.

Lemma escapes_are_left_out_of_keys_witness :
  stack (analyzeState (fst (process (new_healer None) "{"))
           (quote ++ "a" ++ String "\" (String dquote "b") ++ quote))
  = [mkFrame "}" true ["ab"] (Some "ab")].
Proof.
  apply (escapes_are_left_out_of_keys (fst (process (new_healer None) "{"))
           "a" "b" dquote [] (mkFrame "}" true [] None));
    reflexivity.
Defined.

(** ** Calling [finish] again *)

Lemma set_add_twice (keys : list string) (k : string) :
  set_add (set_add keys k) k = set_add keys k.
Proof. unfold set_add at 1. now rewrite set_has_add. Qed.

Lemma close_string_twice (h : StreamHealer) :
  close_string (close_string h) = close_string h.
Proof.
  destruct h as [s b st stk inS esc pending]. unfold close_string.
  cbn [inString stack pendingKeyBuffer].
  destruct inS; [|reflexivity].
  destruct (stack_view stk) as [-> | (below & t & ->)]; [reflexivity|].
  rewrite top_snoc. destruct (isObject t) eqn:Ho.
  - unfold set_stack.
    cbn [inString stack pendingKeyBuffer schema buffer hasStartedJson isEscaped].
    rewrite update_top_snoc, top_snoc. cbn [isObject]. rewrite Ho.
    rewrite update_top_snoc.
    cbn [char isObject keysSeen currentKey]. now rewrite set_add_twice.
  - cbn [inString stack]. now rewrite top_snoc, Ho.
Qed.

Lemma close_string_shape (h : StreamHealer) :
  map shape (stack (close_string h)) = map shape (stack h).
Proof.
  destruct h as [s b st stk inS esc pending]. unfold close_string.
  cbn [inString stack pendingKeyBuffer].
  destruct inS; [|reflexivity].
  destruct (stack_view stk) as [-> | (below & t & ->)]; [reflexivity|].
  rewrite top_snoc. destruct (isObject t); [|reflexivity].
  cbn [set_stack stack]. rewrite update_top_snoc, !map_snoc. reflexivity.
Qed.

(** X13.  [finish] does not reset the healer: the flags and the frames stay as
    they are, so that a second call finds the healer that the first one
    left and returns the same closure again. *)
Theorem finish_can_be_repeated (h : StreamHealer) :
  finish (after_finish h) = finish h
  /\ after_finish (after_finish h) = after_finish h
  /\ map shape (stack (after_finish h)) = map shape (stack h)
  /\ inString (after_finish h) = inString h
  /\ hasStartedJson (after_finish h) = hasStartedJson h.
Proof.
  unfold after_finish. destruct (hasStartedJson h) eqn:Hst; cbn [negb].
  - destruct (close_string_fields h) as (Hs & Hs' & Hin).
    rewrite Hs', Hst. cbn [negb]. rewrite Hin.
    split; [|split; [apply close_string_twice|split; [|auto]]].
    + rewrite !finish_started by congruence.
      now rewrite close_string_twice, Hin.
    + apply close_string_shape.
  - rewrite Hst. cbn [negb]. auto.
Qed.

(** ** Healing what has been healed *)

Lemma closed_prefix (s : option Json) (p : string) :
  ends_closable p = true -> schema_conforms name_plain s = true ->
  finish (analyzeState (begun s) p) = Ok (null_tail (analyzeState (begun s) p))
  /\ json_valid (p ++ null_tail (analyzeState (begun s) p)) = true.
Proof.
  intros Hend Hs. set (h := analyzeState (begun s) p).
  destruct (analyzeState_fields p (begun s)) as (Hsch & _ & Hst).
  fold h in Hsch, Hst. cbn [begun schema hasStartedJson] in Hsch, Hst.
  split.
  - apply (finish_conforms name_plain name_plain_renders); [exact Hst | now rewrite Hsch].
  - unfold ends_closable in Hend. unfold json_valid.
    destruct (scan initial p) as [[ctxs pos]|] eqn:Hsc; [|discriminate].
    rewrite scan_append, Hsc.
    assert (Hag : agree (view_of h) (ctxs, pos) = true).
    { unfold h. rewrite analyzeState_view.
      eapply agree_scan; [|exact Hsc]. reflexivity. }
    destruct (scan_null_tail h ctxs pos) as (st' & -> & Hacc);
      [now rewrite Hsch | exact Hag | exact Hend | exact Hacc].
Qed.

Lemma starts_with_opener_append (p q : string) :
  starts_with_opener p = true -> starts_with_opener (p ++ q) = true.
Proof. destruct p; [discriminate | trivial]. Qed.

(** X14.  The healed text is stable.  Under the conditions in which a prefix
    [p] of a JSON document is healed (a preamble without opener of at
    most 500 characters, [p] beginning with an opener and ending at a
    closable place, a conforming schema with plain required names), the
    healed text [p ++ tail], given to a fresh healer with any schema and
    in any chunking, is forwarded as it is and gets an empty tail. *)
Theorem healed_text_is_stable (s s' : option Json) (preamble p : string)
    (chunks chunks' : list string) :
  no_opener preamble = true ->
  String.length preamble <= MAX_PREAMBLE_BUFFER ->
  starts_with_opener p = true ->
  ends_closable p = true ->
  schema_conforms name_plain s = true ->
  concat_all chunks = preamble ++ p ->
  exists tail,
    heal s chunks = (p, Ok tail)
    /\ (concat_all chunks' = p ++ tail ->
        heal s' chunks' = (p ++ tail, Ok "")).
Proof.
  intros Hpre Hlen Hp Hend Hs E.
  destruct (closed_prefix s p Hend Hs) as [Hfin Hv].
  exists (null_tail (analyzeState (begun s) p)). split.
  - destruct (feed_waiting s preamble p Hpre Hlen Hp chunks "" eq_refl E)
      as (outs & Hf & Ho).
    change (waiting s "") with (new_healer s) in Hf.
    unfold heal. now rewrite Hf, concat_empty_sep, Ho, Hfin.
  - intros E'. apply (heal_complete_document s' ""); auto.
    + unfold MAX_PREAMBLE_BUFFER. simpl. lia.
    + now apply starts_with_opener_append.
Qed.

Lemma healed_text_is_stable_witness :
  exists tail,
    heal (Some schema_ab) ["Here"; ": {" ++ quote; "a" ++ quote ++ ":1"]
    = (text_a1, Ok tail)
    /\ heal None [text_a1; tail] = (text_a1 ++ tail, Ok "").
Proof.
  destruct (healed_text_is_stable (Some schema_ab) None "Here: " text_a1
              ["Here"; ": {" ++ quote; "a" ++ quote ++ ":1"]
              [text_a1; ("," ++ quoted "b" ++ ":null}")%string])
    as (tail & H1 & H2).
  - reflexivity.
  - vm_compute. lia.
  - reflexivity.
  - vm_compute. reflexivity.
  - vm_compute. reflexivity.
  - vm_compute. reflexivity.
  - exists tail. split; [exact H1|].
    assert (Et : tail = ("," ++ quoted "b" ++ ":null}")%string).
    { assert (Hc : heal (Some schema_ab)
                     ["Here"; ": {" ++ quote; "a" ++ quote ++ ":1"]
                   = (text_a1, Ok ("," ++ quoted "b" ++ ":null}")%string))
        by (vm_compute; reflexivity).
      rewrite Hc in H1. now injection H1 as <-. }
    subst tail. apply H2. vm_compute. reflexivity.
Defined.

Lemma healing_twice_without_schema_witness :
  exists tail,
    heal None ["ok: " ++ text_colon] = (text_colon, Ok tail)
    /\ heal None [text_colon ++ tail] = (text_colon ++ tail, Ok "").
Proof.
  apply (healing_twice_without_schema "ok: " text_colon);
    vm_compute; reflexivity.
Defined.

(** ** The proxy: a response that is not streamed *)

Lemma healed_content_begins (s : option Json) (preamble p : string) :
  no_opener preamble = true -> starts_with_opener p = true ->
  healed_content s (preamble ++ p)
  = bind (finish (analyzeState (begun s) p)) (fun tail => Ok (p ++ tail)).
Proof.
  intros Hpre Hp. destruct p as [|c rest]; [discriminate|].
  cbn [starts_with_opener] in Hp. unfold healed_content.
  change (new_healer s) with (waiting s "").
  now rewrite (process_waiting_begins s "" (preamble ++ String c rest)
                 preamble c rest eq_refl Hpre Hp).
Qed.

(** The embedding on the tests of the proxy: a truncated content is
    closed when the request asks for a JSON object. *)
Example tests_json_object :
  healed_content None ("{" ++ quoted "data" ++ ": " ++ quote ++ "incomplete")
  = Ok ("{" ++ quoted "data" ++ ": " ++ quoted "incomplete" ++ "}").
Proof. vm_compute. reflexivity. Qed.

(** X16.  What the proxy makes of the content of a response that is not
    streamed, [healer.process(content) + healer.finish()], with any
    schema.  A complete JSON object or array comes out as it is, without
    the preamble before it, whatever the length of the preamble; a
    content without opener of at most 500 characters comes out
    unchanged. *)
Theorem healed_content_unchanged (s : option Json) :
  (forall preamble p,
      no_opener preamble = true -> starts_with_opener p = true ->
      json_valid p = true ->
      healed_content s (preamble ++ p) = Ok p)
  /\ (forall content,
         no_opener content = true ->
         String.length content <= MAX_PREAMBLE_BUFFER ->
         healed_content s content = Ok content).
Proof.
  split.
  - intros preamble p Hpre Hp Hv.
    rewrite (healed_content_begins s preamble p Hpre Hp).
    rewrite (finish_document s p Hv). cbn [bind]. now rewrite append_nil_r.
  - intros content Hno Hlen. unfold healed_content.
    change (new_healer s) with (waiting s "").
    rewrite (process_waiting_keeps s "" content Hno Hlen).
    cbn [String.append]. now rewrite finish_waiting.
Qed.

Lemma healed_content_unchanged_witness :
  healed_content None (repeat_char "a" 600 ++ "[1,2]") = Ok "[1,2]"
  /\ healed_content None "I cannot." = Ok "I cannot.".
Proof.
  destruct (healed_content_unchanged None) as [H1 H2]. split.
  - apply (H1 (repeat_char "a" 600) "[1,2]"); vm_compute; reflexivity.
  - apply (H2 "I cannot."); [reflexivity | vm_compute; lia].
Defined.

(** X17.  The content of a response that is not streamed, when it is a
    preamble without opener, of any length, followed by a prefix [p] of
    a JSON document that begins with an opener and ends at a closable
    place: with no schema or a conforming schema with plain required
    names, the healed content is [p] followed by a tail, and it is a
    JSON document. *)
Theorem healed_content_is_json (s : option Json) (preamble p : string) :
  no_opener preamble = true -> starts_with_opener p = true ->
  ends_closable p = true -> schema_conforms name_plain s = true ->
  exists tail,
    healed_content s (preamble ++ p) = Ok (p ++ tail)
    /\ json_valid (p ++ tail) = true.
Proof.
  intros Hpre Hp Hend Hs.
  destruct (closed_prefix s p Hend Hs) as [Hfin Hv].
  exists (null_tail (analyzeState (begun s) p)). split; [|exact Hv].
  now rewrite (healed_content_begins s preamble p Hpre Hp), Hfin.
Qed.

Lemma healed_content_is_json_witness :
  exists tail,
    healed_content (Some schema_ab) (repeat_char " " 600 ++ text_a1)
    = Ok (text_a1 ++ tail)
    /\ json_valid (text_a1 ++ tail) = true.
Proof.
  apply (healed_content_is_json (Some schema_ab) (repeat_char " " 600) text_a1);
    vm_compute; reflexivity.
Defined.

(** ** The proxy: [stripDefaults] *)

Lemma strip_members_clean (members : list (string * Json)) :
  Forall (fun m => has_default (stripDefaults (snd m)) = false) members ->
  any_default has_default (strip_members stripDefaults members) = false.
Proof.
  induction 1 as [|[key x] rest Hx _ IH]; [reflexivity|].
  cbn [strip_members]. fold (strip_members stripDefaults rest).
  destruct (key =? "default") eqn:Ek; [exact IH|].
  cbn [any_default]. fold (any_default has_default (strip_members stripDefaults rest)).
  cbn [snd] in Hx. now rewrite Ek, Hx, IH.
Qed.

Lemma strip_clean (v : Json) : has_default (stripDefaults v) = false.
Proof.
  induction v as [| | | |items IH|members IH] using Json_nested_ind;
    try reflexivity.
  - cbn [stripDefaults has_default].
    induction IH as [|x rest Hx _ IHr]; [reflexivity|].
    cbn [map existsb]. now rewrite Hx, IHr.
  - cbn [stripDefaults has_default]. apply strip_members_clean, IH.
Qed.

Lemma strip_members_fixed (members : list (string * Json)) :
  Forall (fun m => has_default (snd m) = false -> stripDefaults (snd m) = snd m)
         members ->
  any_default has_default members = false ->
  strip_members stripDefaults members = members.
Proof.
  induction 1 as [|[key x] rest Hx _ IH]; [reflexivity|].
  cbn [any_default]. fold (any_default has_default rest).
  intros H. apply orb_false_iff in H as [H Hr].
  apply orb_false_iff in H as [Hk Hd].
  cbn [strip_members]. fold (strip_members stripDefaults rest).
  cbn [snd] in Hx. now rewrite Hk, (Hx Hd), (IH Hr).
Qed.

Lemma strip_fixed (v : Json) : has_default v = false -> stripDefaults v = v.
Proof.
  induction v as [| | | |items IH|members IH] using Json_nested_ind;
    try reflexivity.
  - cbn [stripDefaults has_default]. intros H. f_equal.
    induction IH as [|x rest Hx _ IHr]; [reflexivity|].
    cbn [existsb] in H. apply orb_false_iff in H as [H1 H2].
    cbn [map]. now rewrite (Hx H1), (IHr H2).
  - cbn [stripDefaults has_default]. intros H. f_equal.
    now apply strip_members_fixed.
Qed.

(** X18.  [stripDefaults] removes every [default]: no object of the result, at
    any depth, has a member of that name.  It changes nothing else: a
    value without such a member is returned as it is, and only such a
    value is; stripping twice is stripping once. *)
Theorem stripDefaults_removes_every_default (v : Json) :
  has_default (stripDefaults v) = false
  /\ (stripDefaults v = v <-> has_default v = false)
  /\ stripDefaults (stripDefaults v) = stripDefaults v.
Proof.
  split; [apply strip_clean|]. split.
  - split; [|apply strip_fixed].
    intros E. rewrite <- E. apply strip_clean.
  - apply strip_fixed, strip_clean.
Qed.

Lemma stripDefaults_removes_every_default_witness :
  stripDefaults (JObj [("type", JStr "string")]) = JObj [("type", JStr "string")].
Proof.
  apply (proj2 (proj1 (proj2 (stripDefaults_removes_every_default
                                (JObj [("type", JStr "string")]))))).
  reflexivity.
Defined.

Lemma strip_members_assoc (members : list (string * Json)) (k : string) :
  assoc k (strip_members stripDefaults members)
  = if k =? "default" then None
    else option_map stripDefaults (assoc k members).
Proof.
  induction members as [|[key x] rest IH].
  - now destruct (k =? "default").
  - cbn [strip_members]. fold (strip_members stripDefaults rest).
    cbn [assoc]. destruct (key =? "default") eqn:Ek.
    + rewrite IH. destruct (k =? "default") eqn:E; [reflexivity|].
      apply String.eqb_eq in Ek. subst key.
      rewrite String.eqb_sym, E. reflexivity.
    + cbn [assoc]. rewrite IH.
      destruct (key =? k) eqn:E.
      * apply String.eqb_eq in E. subst key. now rewrite Ek.
      * reflexivity.
Qed.

Lemma strip_members_names (members : list (string * Json)) :
  map fst (strip_members stripDefaults members)
  = filter (fun key => negb (key =? "default")) (map fst members).
Proof.
  induction members as [|[key x] rest IH]; [reflexivity|].
  cbn [strip_members]. fold (strip_members stripDefaults rest).
  cbn [map fst filter]. destruct (key =? "default"); cbn [negb map fst];
    now rewrite IH.
Qed.

(** X19.  What [stripDefaults] keeps of an object: the member [default] is
    gone, every other member is there with its stripped value, and the
    names of the members come in the same order. *)
Theorem stripDefaults_keeps_the_other_members (members : list (string * Json)) :
  get (stripDefaults (JObj members)) "default" = None
  /\ (forall k, k <> "default" ->
                get (stripDefaults (JObj members)) k
                = option_map stripDefaults (get (JObj members) k))
  /\ exists stripped,
       stripDefaults (JObj members) = JObj stripped
       /\ map fst stripped
          = filter (fun key => negb (key =? "default")) (map fst members).
Proof.
  cbn [stripDefaults get]. split; [|split].
  - now rewrite strip_members_assoc.
  - intros k Hk. rewrite strip_members_assoc.
    apply String.eqb_neq in Hk. now rewrite Hk.
  - eexists. split; [reflexivity | apply strip_members_names].
Qed.

Lemma stripDefaults_keeps_the_other_members_witness :
  get (stripDefaults schema_defaults) "required"
  = Some (JArr [JStr "a"; JStr "b"; JStr "c"]).
Proof.
  apply (proj1 (proj2 (stripDefaults_keeps_the_other_members
                         [("type", JStr "object");
                          ("required", JArr [JStr "a"; JStr "b"; JStr "c"]);
                          ("properties",
                           JObj [("b", JObj [("default", JStr "x")]);
                                 ("c", JObj [("default", JNum "42")])])]))
           "required").
  discriminate.
Defined.

(** ** The proxy: the closing frame of a stream *)

Lemma all_chars_append (ok : ascii -> bool) (a b : string) :
  all_chars ok (a ++ b) = all_chars ok a && all_chars ok b.
Proof.
  induction a as [|c a IH]; [reflexivity|].
  cbn [String.append all_chars]. now rewrite IH, andb_assoc.
Qed.

Lemma control_not_special (c : ascii) :
  is_control c = true -> (c =? dquote)%char = false /\ (c =? "\")%char = false.
Proof.
  intros H. split.
  - destruct (c =? dquote)%char eqn:E; [|reflexivity].
    apply Ascii.eqb_eq in E. subst c. discriminate.
  - destruct (c =? "\")%char eqn:E; [|reflexivity].
    apply Ascii.eqb_eq in E. subst c. discriminate.
Qed.

Lemma scan_escaped (ctxs : list container) (closure : string) :
  all_chars plain_or_quote closure = true ->
  scan (ctxs, PStringChars Plain) (escape_quotes closure)
  = Some (ctxs, PStringChars Plain).
Proof.
  induction closure as [|c closure IH]; [reflexivity|].
  cbn [all_chars escape_quotes]. intros H.
  apply andb_true_iff in H as [Hc H]. specialize (IH H).
  destruct (c =? dquote)%char eqn:Eq.
  - rewrite !scan_cons. exact IH.
  - rewrite scan_cons. unfold plain_or_quote in Hc. rewrite Eq, orb_false_r in Hc.
    unfold plain_char in Hc.
    apply andb_true_iff in Hc as [Hc Hb]. apply andb_true_iff in Hc as [Hc _].
    apply negb_true_iff in Hc, Hb.
    cbn [step string_char]. rewrite Eq, Hb, Hc. exact IH.
Qed.

Lemma escape_quotes_append (a b : string) :
  escape_quotes (a ++ b) = escape_quotes a ++ escape_quotes b.
Proof.
  induction a as [|c a IH]; [reflexivity|].
  cbn [String.append escape_quotes]. rewrite IH.
  now destruct (c =? dquote)%char.
Qed.

Lemma payload_scan (closure : string) :
  scan initial (final_payload closure)
  = scan ([InObject; InObject; InArray; InObject], PStringChars Plain)
         (escape_quotes closure ++ quote ++ "}}]}").
Proof. reflexivity. Qed.

Lemma payload_valid (closure : string) :
  all_chars plain_or_quote closure = true ->
  json_valid (final_payload closure) = true.
Proof.
  intros H. unfold json_valid.
  rewrite payload_scan, scan_append, (scan_escaped _ closure H).
  reflexivity.
Qed.

(** X20.  The JSON text of the closing frame.  When the closure holds only
    quotes and characters that a JSON string takes as they stand, the
    text that the template of [finalChunk] builds around it is a JSON
    document. *)
Theorem closing_frame_is_json (closure : string) :
  all_chars plain_or_quote closure = true ->
  json_valid (final_payload closure) = true.
Proof. exact (payload_valid closure). Qed.

Lemma closing_frame_is_json_witness :
  json_valid (final_payload (quote ++ "]}")) = true.
Proof. apply closing_frame_is_json. reflexivity. Defined.

(** X21.  Only quotes are escaped: a control character in the closure, a line
    feed for one, after quotes and plain characters, goes into the
    frame as it is, and the text of the frame is not a JSON document. *)
Theorem closing_frame_with_control_character (a b : string) (c : ascii) :
  all_chars plain_or_quote a = true -> is_control c = true ->
  json_valid (final_payload (a ++ String c b)) = false.
Proof.
  intros Ha Hc. destruct (control_not_special c Hc) as [Eq Eb].
  unfold json_valid.
  rewrite payload_scan, escape_quotes_append. cbn [escape_quotes].
  rewrite Eq, append_assoc, scan_append, (scan_escaped _ a Ha).
  cbn [String.append]. rewrite scan_cons. cbn [step string_char].
  rewrite Eq, Eb, Hc. reflexivity.
Qed.

Lemma closing_frame_with_control_character_witness :
  json_valid (final_payload ("Sorry." ++ String "010" "I cannot.")) = false.
Proof.
  apply (closing_frame_with_control_character "Sorry." "I cannot." "010");
    reflexivity.
Defined.

Lemma plain_name_chars (name : string) :
  plain_name name = true -> all_chars plain_or_quote name = true.
Proof.
  induction name as [|c name IH]; [reflexivity|].
  cbn [plain_name all_chars]. intros H. apply andb_true_iff in H as [Hc H].
  unfold plain_or_quote at 1. now rewrite Hc, (IH H).
Qed.

Lemma entries_chars (names : list Json) :
  forallb name_plain names = true ->
  all_chars plain_or_quote
    (join "," (map (fun k => quoted (rendered k) ++ ":null") names)) = true.
Proof.
  induction names as [|k names IH]; [reflexivity|].
  cbn [forallb]. intros H. apply andb_true_iff in H as [Hk H].
  unfold name_plain in Hk. apply andb_true_iff in Hk as [_ Hk].
  assert (He : all_chars plain_or_quote (quoted (rendered k) ++ ":null") = true).
  { unfold quoted, quote. rewrite !all_chars_append.
    rewrite (plain_name_chars _ Hk). reflexivity. }
  destruct names as [|k' names]; [exact He|].
  cbn [map]. rewrite join_cons, all_chars_append, He.
  cbn [String.append all_chars andb].
  cbn [map] in IH. rewrite (IH H). reflexivity.
Qed.

Lemma piece_chars (f : StackFrame) (piece : string) :
  piece_of f piece -> closer_ok f = true ->
  all_chars plain_or_quote piece = true.
Proof.
  intros (names & -> & Hn & _) Hc. rewrite all_chars_append.
  assert (Hch : all_chars plain_or_quote (String (char f) "") = true).
  { unfold closer_ok in Hc. apply Ascii.eqb_eq in Hc. rewrite Hc.
    now destruct (isObject f). }
  rewrite Hch, andb_true_r. unfold null_injection.
  destruct names as [|k names]; [reflexivity|].
  rewrite all_chars_append, (entries_chars _ Hn).
  now destruct (keysSeen f).
Qed.

Lemma pieces_chars (fs : list StackFrame) (pieces : list string) :
  Forall2 piece_of fs pieces -> forallb closer_ok fs = true ->
  all_chars plain_or_quote (concat_all pieces) = true.
Proof.
  induction 1 as [|f piece fs pieces Hp _ IH]; [reflexivity|].
  cbn [forallb]. intros H. apply andb_true_iff in H as [Hf H].
  change (concat_all (piece :: pieces)) with (piece ++ concat_all pieces).
  rewrite all_chars_append.
  now rewrite (piece_chars f piece Hp Hf), (IH H).
Qed.

Lemma frame_ok_closer (fs : list StackFrame) :
  forallb frame_ok fs = true -> forallb closer_ok fs = true.
Proof.
  induction fs as [|f fs IH]; [reflexivity|].
  cbn [forallb]. intros H. apply andb_true_iff in H as [Hf H].
  unfold frame_ok in Hf. apply andb_true_iff in Hf as [Hf _].
  apply andb_true_iff in Hf as [Hf _]. now rewrite Hf, (IH H).
Qed.

Lemma close_string_closers (h : StreamHealer) :
  forallb closer_ok (stack h) = true ->
  forallb closer_ok (rev (stack (close_string h))) = true.
Proof.
  intros H. rewrite <- forallb_rev in H. rewrite close_string_view.
  destruct (inString h); [|exact H].
  destruct (rev (stack h)) as [|t r]; [reflexivity|].
  destruct (isObject t) eqn:Ho; [|exact H].
  cbn [forallb] in *. rewrite closer_ok_frame.
  unfold closer_ok in H. now rewrite Ho in *.
Qed.

(** X22.  The closing frame of a session, where the read loop gives
    every content to the healer.  Once the JSON has started, with no
    schema or with a conforming schema whose required names are plain,
    [finish] returns a closure, and the text that [finalChunk] builds
    around it is a JSON document, whatever the chunks were. *)
Theorem closing_frame_of_a_session (s : option Json) (chunks : list string) :
  schema_conforms name_plain s = true ->
  hasStartedJson (fst (feed (new_healer s) chunks)) = true ->
  exists closure,
    snd (heal s chunks) = Ok closure
    /\ json_valid (final_payload closure) = true.
Proof.
  intros Hs Hst. unfold heal.
  destruct (fed_healer s chunks) as (Hsch & _ & _ & _ & Hok).
  destruct (feed (new_healer s) chunks) as [h outs]. cbn [fst snd] in *.
  exists (null_tail h). split.
  - apply (finish_conforms name_plain name_plain_renders); [exact Hst | now rewrite Hsch].
  - apply payload_valid. unfold null_tail. rewrite all_chars_append.
    apply andb_true_iff. split; [now destruct (inString h)|].
    apply (pieces_chars (rev (stack (close_string h)))).
    + apply tail_pieces_shape.
      destruct (close_string_fields h) as (-> & _). now rewrite Hsch.
    + apply close_string_closers, frame_ok_closer, Hok.
Qed.

Lemma closing_frame_of_a_session_witness :
  exists closure,
    snd (heal (Some schema_ab) ["Here: {" ++ quoted "a" ++ ":" ++ quote ++ "x"])
    = Ok closure
    /\ json_valid (final_payload closure) = true.
Proof.
  apply (closing_frame_of_a_session (Some schema_ab)
           ["Here: {" ++ quoted "a" ++ ":" ++ quote ++ "x"]);
    vm_compute; reflexivity.
Defined.

(** ** The proxy: the lines of the upstream response *)

Lemma split_lf_cons (s : string) : exists x more, split_lf s = x :: more.
Proof.
  induction s as [|c s (x & more & E)]; [now exists "", []|].
  cbn [split_lf]. rewrite E. destruct (c =? "010")%char; eauto.
Qed.

Lemma split_lf_append (a b : string) :
  split_lf (a ++ b)
  = (removelast (split_lf a) ++ split_lf (last (split_lf a) "" ++ b))%list.
Proof.
  induction a as [|c a IH]; [reflexivity|].
  cbn [String.append split_lf]. rewrite IH.
  destruct (split_lf_cons a) as (x & more & E). rewrite E.
  destruct (c =? "010")%char eqn:Ec.
  - reflexivity.
  - destruct more as [|y more].
    + cbn [removelast last app String.append split_lf]. now rewrite Ec.
    + reflexivity.
Qed.

Lemma split_lf_plain (s : string) :
  all_chars (fun c => negb (c =? "010")%char) s = true -> split_lf s = [s].
Proof.
  induction s as [|c s IH]; [reflexivity|].
  cbn [all_chars split_lf]. intros H. apply andb_true_iff in H as [Hc H].
  apply negb_true_iff in Hc. now rewrite Hc, (IH H).
Qed.

Lemma split_lf_pieces (s : string) :
  Forall (fun x => all_chars (fun c => negb (c =? "010")%char) x = true)
         (split_lf s).
Proof.
  induction s as [|c s IH]; [repeat constructor|].
  cbn [split_lf]. destruct (c =? "010")%char eqn:Ec.
  - constructor; [reflexivity | exact IH].
  - destruct (split_lf s) as [|x more]; [repeat constructor; cbn; now rewrite Ec|].
    inversion IH as [|? ? Hx Hm]; subst.
    constructor; [|exact Hm]. cbn [all_chars]. now rewrite Ec, Hx.
Qed.

Lemma split_lf_last_plain (s : string) :
  all_chars (fun c => negb (c =? "010")%char) (last (split_lf s) "") = true.
Proof.
  destruct (split_lf_cons s) as (x & more & E).
  pose proof (split_lf_pieces s) as H. rewrite E in *.
  clear E. revert x H. induction more as [|y more IH]; intros x H.
  - now inversion H.
  - inversion H; subst. now apply (IH y).
Qed.

Lemma split_lf_joined (s : string) :
  concat_all (map (fun line => line ++ String "010" "") (removelast (split_lf s)))
  ++ last (split_lf s) "" = s.
Proof.
  induction s as [|c s IH]; [reflexivity|].
  cbn [split_lf]. destruct (split_lf_cons s) as (x & more & E).
  rewrite E in *. destruct (c =? "010")%char eqn:Ec.
  - apply Ascii.eqb_eq in Ec. subst c.
    change (removelast ("" :: x :: more)) with ("" :: removelast (x :: more)).
    change (last ("" :: x :: more) "") with (last (x :: more) "").
    cbn [map concat_all fold_right String.append]. f_equal. exact IH.
  - destruct more as [|y more].
    + cbn in IH |- *. now rewrite IH.
    + change (removelast (String c x :: y :: more))
        with (String c x :: removelast (y :: more)).
      change (last (String c x :: y :: more) "") with (last (y :: more) "").
      change (removelast (x :: y :: more)) with (x :: removelast (y :: more)) in IH.
      change (last (x :: y :: more) "") with (last (y :: more) "") in IH.
      cbn [map concat_all fold_right String.append] in IH |- *.
      now rewrite IH.
Qed.

Lemma last_append {A : Type} (l l' : list A) (d : A) :
  l' <> [] -> last (l ++ l') d = last l' d.
Proof.
  intros H. induction l as [|x l IH]; [reflexivity|].
  cbn [app]. destruct (l ++ l')%list eqn:E; [|exact IH].
  apply app_eq_nil in E as [_ E]. contradiction.
Qed.

Lemma read_all_lines (reads : list string) :
  forall buffer,
    all_chars (fun c => negb (c =? "010")%char) buffer = true ->
    read_all buffer reads
    = (removelast (split_lf (buffer ++ concat_all reads)),
       last (split_lf (buffer ++ concat_all reads)) "").
Proof.
  induction reads as [|decoded reads IH]; intros buffer Hb.
  - cbn [read_all concat_all fold_right]. rewrite append_nil_r.
    now rewrite (split_lf_plain buffer Hb).
  - cbn [read_all]. unfold read_lines.
    rewrite (IH _ (split_lf_last_plain (buffer ++ decoded))).
    change (concat_all (decoded :: reads)) with (decoded ++ concat_all reads).
    rewrite <- append_assoc.
    rewrite (split_lf_append (buffer ++ decoded) (concat_all reads)).
    destruct (split_lf_cons (last (split_lf (buffer ++ decoded)) "" ++ concat_all reads))
      as (x & more & E).
    rewrite E. f_equal.
    + now rewrite removelast_app.
    + now rewrite last_append.
Qed.

(** X23.  In the read loop that decodes every read, the lines of the
    upstream response do not depend on how it arrives.
    Whatever the reads, the complete lines that the loop has split off
    and the buffer it is left with are those of the whole text read so
    far: the pieces between its line feeds, the last one being the
    buffer.  No line and no buffer holds a line feed, and the lines, each
    followed by a line feed, and then the buffer, give back the text. *)
Theorem lines_do_not_depend_on_reads (reads : list string) :
  let whole := concat_all reads in
  let (lines, buffer) := read_all "" reads in
  lines = removelast (split_lf whole)
  /\ buffer = last (split_lf whole) ""
  /\ Forall (fun x => all_chars (fun c => negb (c =? "010")%char) x = true)
            (lines ++ [buffer])
  /\ concat_all (map (fun line => line ++ String "010" "") lines) ++ buffer
     = whole.
Proof.
  cbv zeta. rewrite (read_all_lines reads "" eq_refl). cbn [String.append].
  split; [reflexivity|]. split; [reflexivity|]. split.
  - destruct (split_lf_cons (concat_all reads)) as (x & more & E).
    rewrite <- app_removelast_last by (rewrite E; discriminate).
    apply split_lf_pieces.
  - apply split_lf_joined.
Qed.
